(** * drawer-stack: the URL-backed drawer stack and its controller

    A shallow embedding of the TypeScript sources

    - [useDrawerStack.ts]  (the stack store: derivation and mutators),
    - [routeUtils.ts]      (route flattening and resolution),
    - [DrawerStack.tsx]    (the controller: close sequence, depth geometry,
                            per-drawer content resolution),
    - [CustomVerticalDrawer.tsx] (the drag gesture recogniser),

    followed by the properties of the specification, each one stated over
    these definitions.

    Conventions.  A [URLSearchParams] object is its ordered list of decoded
    (name, value) pairs; parsing a query string and printing it back is the
    identity on that list, so [location.search] is kept in parsed form.
    Array indices are [nat]; JavaScript numbers that take part in a
    subtraction that can go below zero are [Z].  Pixel quantities are
    binary64 numbers, kept as the rationals they denote ([Q]): a decimal
    literal is the binary64 nearest to it, and every multiplication,
    division and subtraction rounds its exact result to the nearest
    binary64, ties to even (module [Number]); comparisons and [Math.max]
    are exact.  A React callback closes over the values of the render
    that created it: those captured values are Section variables, and
    become explicit arguments when the Section is closed. *)

From Stdlib Require Import ZArith QArith Lqa Ascii String.
From Stdlib Require PrimFloat SpecFloat FloatOps.
From stdpp Require Import base list strings gmap sets pretty.

Close Scope Q_scope.
Open Scope string_scope.

(* ===================================================================== *)
(** ** The host: URLSearchParams, locations, navigation                  *)
(* ===================================================================== *)

Module URLSearchParams.

(** The ordered list of (name, value) pairs of a query string. *)
Abbreviation t := (list (string * string)).

(** [sp.getAll(name)]: the values stored under [name], in order. *)
Definition getAll (name : string) (sp : t) : list string :=
  (filter (λ kv, kv.1 = name) sp).*2.

(** [sp.append(name, value)]: one more pair, at the end. *)
Definition append (name value : string) (sp : t) : t :=
  (sp ++ [(name, value)])%list.

(** [sp.delete(name)]: drops every pair stored under [name]. *)
Definition delete (name : string) (sp : t) : t :=
  filter (λ kv, kv.1 ≠ name) sp.

(** [xs.forEach(v => sp.append(name, v))]. *)
Definition appendEach (name : string) (xs : list string) (sp : t) : t :=
  foldl (λ acc v, append name v acc) sp xs.

End URLSearchParams.

(** [xs.slice(0, -1)]: a negative end counts from the length, floored at 0. *)
Definition slice_0_m1 {A} (xs : list A) : list A :=
  take (length xs - 1) xs.

(** A location as the mutators pass it to [navigate]:
    [{ pathname, search }].  The hash, which they never pass, is left out. *)
Record Location : Type := mkLocation {
  pathname : string;
  search : URLSearchParams.t
}.

(** The browser: the live URL ([window.location]) and the entries that the
    back button returns to. *)
Record Browser : Type := mkBrowser {
  window_location : Location;
  history : list Location
}.

(** [navigate(to, { replace })]: with [replace: false] the current entry is
    kept on the history stack. *)
Definition navigate (to : Location) (replace : bool) (b : Browser) : Browser :=
  {| window_location := to;
     history := if replace then history b else window_location b :: history b |}.

(* ===================================================================== *)
(** ** useDrawerStack.ts                                                 *)
(* ===================================================================== *)

Record DrawerStackItem : Type := mkItem {
  id : string;
  path : string;
  level : Z
}.

(** [xs.map((x, index) => f x index)], the index counted from [i]. *)
Fixpoint mapi_from {A B} (f : A → nat → B) (i : nat) (xs : list A) : list B :=
  match xs with
  | [] => []
  | x :: xs' => f x i :: mapi_from f (S i) xs'
  end.

(** The template literal [`drawer-${index}`]. *)
Definition drawer_id (index : nat) : string := "drawer-" +:+ pretty index.

Section useDrawerStack.

(** What the hook read at render time: [useLocation()], of which
    [useSearchParams()] is the parsed [search] part. *)
Variable location : Location.

Definition searchParams : URLSearchParams.t := search location.

Definition drawerStack : list DrawerStackItem :=
  let drawerParams := URLSearchParams.getAll "drawer" searchParams in
  mapi_from (λ path index,
    {| id := drawer_id index; path := path; level := Z.of_nat index |})
    0 drawerParams.

Definition hasDrawers : bool := bool_decide (0 < length drawerStack).

(** [drawerStack[drawerStack.length - 1] || null]. *)
Definition currentDrawer : option DrawerStackItem := last drawerStack.

(** Reads [window.location.search], not the captured [searchParams]. *)
Definition pushDrawer (path : string) (b : Browser) : Browser :=
  let currentSearchParams := search (window_location b) in
  let currentSearchParams :=
    URLSearchParams.append "drawer" path currentSearchParams in
  navigate {| pathname := pathname location;
              search := currentSearchParams |} false b.

Definition popDrawer (b : Browser) : Browser :=
  let drawerParams := URLSearchParams.getAll "drawer" searchParams in
  if bool_decide (length drawerParams = 0) then b
  else
    let newSearchParams := URLSearchParams.delete "drawer" searchParams in
    let newSearchParams :=
      URLSearchParams.appendEach "drawer" (slice_0_m1 drawerParams)
        newSearchParams in
    navigate {| pathname := pathname location;
                search := newSearchParams |} false b.

Definition closeAllDrawers (b : Browser) : Browser :=
  let newSearchParams := URLSearchParams.delete "drawer" searchParams in
  navigate {| pathname := pathname location;
              search := newSearchParams |} false b.

Definition replaceDrawer (path : string) (b : Browser) : Browser :=
  let drawerParams := URLSearchParams.getAll "drawer" searchParams in
  let newSearchParams := URLSearchParams.delete "drawer" searchParams in
  let newSearchParams :=
    if bool_decide (length drawerParams = 0)
    then URLSearchParams.append "drawer" path newSearchParams
    else
      URLSearchParams.append "drawer" path
        (URLSearchParams.appendEach "drawer" (slice_0_m1 drawerParams)
           newSearchParams) in
  navigate {| pathname := pathname location;
              search := newSearchParams |} false b.

Definition replaceDrawerStack (paths : list string) (b : Browser) : Browser :=
  let newSearchParams := URLSearchParams.delete "drawer" searchParams in
  let newSearchParams :=
    URLSearchParams.appendEach "drawer" paths newSearchParams in
  navigate {| pathname := pathname location;
              search := newSearchParams |} false b.

End useDrawerStack.

(** Modelled from the spec: [popDrawerInternal], which the controller takes
    from the hook and which this version of [useDrawerStack.ts] does not
    export; the spec names the operation of the close sequence [pop()], so
    it is [popDrawer]. *)
Definition popDrawerInternal (location : Location) (b : Browser) : Browser :=
  popDrawer location b.

(** The persisted list: the [drawer] parameter of the live URL. *)
Definition persisted (b : Browser) : list string :=
  URLSearchParams.getAll "drawer" (search (window_location b)).

(** The hook as the next render sees it, once the URL has propagated. *)
Definition render (b : Browser) : Location := window_location b.

(** The mutators, as a caller of the rendered hook invokes them. *)
Inductive Mutation : Type :=
  | Push (path : string)
  | Pop
  | CloseAll
  | ReplaceTop (path : string)
  | ReplaceAll (paths : list string).

Definition mutate (b : Browser) (m : Mutation) : Browser :=
  match m with
  | Push p => pushDrawer (render b) p b
  | Pop => popDrawer (render b) b
  | CloseAll => closeAllDrawers (render b) b
  | ReplaceTop p => replaceDrawer (render b) p b
  | ReplaceAll ps => replaceDrawerStack (render b) ps b
  end.

(** A sequence of mutations with a render between any two of them. *)
Definition mutations (b : Browser) (ms : list Mutation) : Browser :=
  foldl mutate b ms.

(* ===================================================================== *)
(** ** routeUtils.ts                                                     *)
(* ===================================================================== *)

(** [s.split(c)[0]]: the text before the first [c] (all of [s] without one). *)
Fixpoint split_head (c : ascii) (s : string) : string :=
  match s with
  | "" => ""
  | String a s' => if Ascii.eqb a c then "" else String a (split_head c s')
  end.

(** The text after the first [c], when there is one. *)
Fixpoint split_rest (c : ascii) (s : string) : option string :=
  match s with
  | "" => None
  | String a s' => if Ascii.eqb a c then Some s' else split_rest c s'
  end.

(** [s.split(c)[1]]: [undefined] without a [c] in [s]. *)
Definition split_second (c : ascii) (s : string) : option string :=
  split_head c <$> split_rest c s.

(** [s.replace(/\/+/g, "/")]: every run of slashes becomes one slash. *)
Fixpoint collapse_slashes (s : string) : string :=
  match s with
  | "" => ""
  | String a s' =>
      if Ascii.eqb a "/" then
        match s' with
        | String b _ =>
            if Ascii.eqb b "/" then collapse_slashes s'
            else String a (collapse_slashes s')
        | "" => String a ""
        end
      else String a (collapse_slashes s')
  end.

(** The truth value of an optional string: [undefined] and [""] are falsy. *)
Definition truthy (s : option string) : bool :=
  match s with
  | None => false
  | Some s => negb (String.eqb s "")
  end.

(** The string of an optional path, read after it was tested truthy. *)
Definition js_or_empty (s : option string) : string := default "" s.

Module PathMatch.
(** react-router's [PathMatch]: the captured parameters, the part of the
    path that matched, and that part without its trailing slashes. *)
Record t : Type := mk {
  params : list (string * string);
  pathname : string;
  pathnameBase : string
}.
End PathMatch.

Module RouteObject.
Section RouteObject.
(** What a route renders (a [ReactNode]). *)
Variable View : Type.

(** react-router's [RouteObject], with the three fields the drawer
    stack reads.  An absent [children] flattens like an empty one, so
    it is a plain list. *)
#[local] Unset Elimination Schemes.
Inductive t : Type :=
  mk (path : option string) (element : option View) (children : list t).

Definition path (r : t) : option string := let '(mk p _ _) := r in p.
Definition element (r : t) : option View := let '(mk _ e _) := r in e.
Definition children (r : t) : list t := let '(mk _ _ c) := r in c.
End RouteObject.
Arguments mk {View} _ _ _.
Arguments path {View} _.
Arguments element {View} _.
Arguments children {View} _.
End RouteObject.

Section routeUtils.

Context {View : Type}.

Abbreviation Route := (RouteObject.t View).

(** The conditional that computes [fullPath] in [flattenRoutes]. *)
Definition fullPath_of (parentPath : string) (route : Route) : string :=
  if truthy (RouteObject.path route) then
    let p := js_or_empty (RouteObject.path route) in
    if String.eqb parentPath "/" then
      if String.eqb p "/" then "/" else "/" +:+ p
    else collapse_slashes (parentPath +:+ "/" +:+ p)
  else parentPath.

(** One iteration of the [forEach] of [flattenRoutes]: the route itself
    with its full path, then its flattened children. *)
Fixpoint flattenRoute (parentPath : string) (route : Route) : list Route :=
  let fullPath := fullPath_of parentPath route in
  RouteObject.mk (Some fullPath) (RouteObject.element route)
                 (RouteObject.children route)
  :: flat_map (flattenRoute fullPath) (RouteObject.children route).

Definition flattenRoutes (routes : list Route) (parentPath : string)
  : list Route :=
  flat_map (flattenRoute parentPath) routes.

(** react-router's [matchPath({ path, end }, pathname)], which the
    sources import: a parameter of the development. *)
Variable matchPath : string → bool → string → option PathMatch.t.

(** The [for ... of] loop of [findRouteAndMatch]. *)
Fixpoint findRouteAndMatch_loop (pathname : string) (routes : list Route)
  : option (Route * PathMatch.t) :=
  match routes with
  | [] => None
  | route :: rest =>
      if negb (truthy (RouteObject.path route))
      then findRouteAndMatch_loop pathname rest
      else
        match matchPath (js_or_empty (RouteObject.path route)) true pathname with
        | Some m => Some (route, m)
        | None => findRouteAndMatch_loop pathname rest
        end
  end.

Definition findRouteAndMatch (path : string) (routes : list Route)
  : option (Route * PathMatch.t) :=
  let pathname := split_head "?" path in
  findRouteAndMatch_loop pathname routes.

(** *** DrawerStack.tsx: the content of one drawer *)

(** The three things [DrawerContent] can render. *)
Inductive Rendered : Type :=
  | RootRejected
  | NotFound (path : string)
  | Resolved (element : View) (route : Route) (m : PathMatch.t)
             (drawerSearch : string).

Definition DrawerContent (path : string) (routes : list Route) : Rendered :=
  if String.eqb path "/" then RootRejected
  else
    let flatRoutes := flattenRoutes routes "" in
    match findRouteAndMatch path flatRoutes with
    | None => NotFound path
    | Some (route, m) =>
        match RouteObject.element route with
        | None => NotFound path
        | Some el =>
            let drawerSearch := default "" (split_second "?" path) in
            Resolved el route m drawerSearch
        end
    end.

End routeUtils.


(* ===================================================================== *)
(** ** A reference matcher                                               *)
(* ===================================================================== *)

Definition ascii_lower (a : ascii) : ascii :=
  let n := nat_of_ascii a in
  if (65 <=? n)%nat && (n <=? 90)%nat then ascii_of_nat (n + 32) else a.

Fixpoint string_lower (s : string) : string :=
  match s with
  | "" => ""
  | String a s' => String (ascii_lower a) (string_lower s')
  end.

(** [s.split(c)]. *)
Fixpoint split_on (c : ascii) (s : string) : list string :=
  match s with
  | "" => [""]
  | String a s' =>
      if Ascii.eqb a c then "" :: split_on c s'
      else
        match split_on c s' with
        | h :: t => String a h :: t
        | [] => [String a ""]
        end
  end.

Fixpoint strip_leading (c : ascii) (s : string) : string :=
  match s with
  | "" => ""
  | String a s' => if Ascii.eqb a c then strip_leading c s' else s
  end.

Fixpoint strip_trailing (c : ascii) (s : string) : string :=
  match s with
  | "" => ""
  | String a s' =>
      let r := strip_trailing c s' in
      if Ascii.eqb a c && String.eqb r "" then "" else String a r
  end.

(** The segments between the slashes; none for the root. *)
Definition segments (body : string) : list string :=
  if String.eqb body "" then [] else split_on "/" body.

Fixpoint join_segments (segs : list string) : string :=
  match segs with
  | [] => ""
  | [s] => s
  | s :: rest => s +:+ "/" +:+ join_segments rest
  end.

(** A pattern segment [:name] captures one non-empty path segment; any
    other pattern segment matches its own text, whatever the case. *)
Definition segment_match (pat seg : string) : option (list (string * string)) :=
  match pat with
  | String ":" name =>
      if String.eqb name "" || String.eqb seg "" then None
      else Some [(name, seg)]
  | _ =>
      if String.eqb (string_lower pat) (string_lower seg) then Some [] else None
  end.

Fixpoint segments_match (end_ : bool) (pats segs : list string)
  : option (list (string * string)) :=
  match pats, segs with
  | [], [] => Some []
  | [], _ :: _ => if end_ then None else Some []
  | _ :: _, [] => None
  | p :: pats', s :: segs' =>
      match segment_match p s with
      | Some captured =>
          (λ more, captured ++ more)%list <$> segments_match end_ pats' segs'
      | None => None
      end
  end.

(** Modelled from the spec: react-router's [matchPath], which the sources
    import and do not define.  The spec reads the call with [end: true] as
    "an exact full-path match ... requiring the match to consume the entire
    candidate path"; this is that matcher for patterns whose segments are
    literal text or [:name] parameters: the pattern and the path are
    compared segment by segment, the path has to start with a slash, may
    end in spare slashes, and with [end_ = true] has to have no segment
    left over. *)
Definition matchPath_model (pattern : string) (end_ : bool) (pathname : string)
  : option PathMatch.t :=
  match pathname with
  | String "/" rest =>
      let pats := segments (strip_trailing "/" (strip_leading "/" pattern)) in
      let segs := segments (strip_trailing "/" rest) in
      match segments_match end_ pats segs with
      | Some captured =>
          let matched :=
            if end_ then pathname
            else "/" +:+ join_segments (take (length pats) segs) in
          Some (PathMatch.mk captured matched
                  ("/" +:+ strip_trailing "/" (strip_leading "/" matched)))
      | None => None
      end
  | _ => None
  end.

(* ===================================================================== *)
(** ** JavaScript numbers                                                *)
(* ===================================================================== *)

Module Number.

(** The binary64 nearest to the positive rational [n / d], ties to the
    even significand.  The quotient is scaled by a power of two so that it
    lies between [2^52] and [2^53], rounded to an integer there, and
    scaled back.  The exponent is not bounded: pixel quantities are far
    from both ends of the binary64 range. *)
Definition round_pos (n d : positive) : Q :=
  let e0 := (Z.log2 (Zpos n) - Z.log2 (Zpos d) - 53)%Z in
  let N := if (0 <=? e0)%Z then Zpos n else (Zpos n * 2 ^ (- e0))%Z in
  let D0 := if (0 <=? e0)%Z then (Zpos d * 2 ^ e0)%Z else Zpos d in
  let e := if (2 ^ 53 <=? N / D0)%Z then (e0 + 1)%Z else e0 in
  let D := if (2 ^ 53 <=? N / D0)%Z then (2 * D0)%Z else D0 in
  let m := (N / D)%Z in
  let r := (N mod D)%Z in
  let m' := match (2 * r ?= D)%Z with
            | Lt => m
            | Gt => (m + 1)%Z
            | Eq => if Z.even m then m else (m + 1)%Z
            end in
  if (0 <=? e)%Z then inject_Z (m' * 2 ^ e) else (m' # Z.to_pos (2 ^ (- e)))%Q.

(** The binary64 nearest to a rational. *)
Definition round (x : Q) : Q :=
  match Qnum x with
  | Z0 => 0%Q
  | Zpos n => round_pos n (Qden x)
  | Zneg n => (- round_pos n (Qden x))%Q
  end.

(** A decimal literal of the source, such as [0.3]. *)
Definition lit (x : Q) : Q := round x.

(** [a - b], [a * b] and [a / b] on numbers; the sources divide by a
    height only after they have found it above 0. *)
Definition sub (a b : Q) : Q := round (a - b)%Q.
Definition mul (a b : Q) : Q := round (a * b)%Q.
Definition div (a b : Q) : Q := round (a / b)%Q.

End Number.

(** The binary64 numbers of the kernel, to compare [Number] with. *)
Module Binary64.

Import PrimFloat.

(** The rational a finite binary64 number denotes. *)
Definition to_Q (f : float) : option Q :=
  match FloatOps.Prim2SF f with
  | SpecFloat.S754_zero _ => Some 0%Q
  | SpecFloat.S754_finite sign m e =>
      let v := if (0 <=? e)%Z then inject_Z (Zpos m * 2 ^ e)
               else (Zpos m # Z.to_pos (2 ^ (- e)))%Q in
      Some (if sign then (- v)%Q else v)
  | _ => None
  end.

Definition agrees (sample : Q * float) : bool :=
  match to_Q sample.2 with
  | Some q => Qeq_bool sample.1 q
  | None => false
  end.

(** Computations of the sources, once with [Number] and once in binary64.
    A decimal literal is written as the quotient of two integers, which
    binary64 division rounds to the number the literal stands for. *)
Definition samples : list (Q * float) :=
  [ (Number.lit (3 # 10), (3 / 10)%float);
    (Number.lit (1 # 25), (1 / 25)%float);
    (Number.lit (1001 # 10), (1001 / 10)%float);
    (Number.lit (17 # 25), (17 / 25)%float);
    (Number.mul 100 (Number.lit (3 # 10)), (100 * (3 / 10))%float);
    (Number.mul 723 (Number.lit (3 # 10)), (723 * (3 / 10))%float);
    (Number.mul 0 (Number.lit (3 # 10)), (0 * (3 / 10))%float);
    (Number.sub 40 10, (40 - 10)%float);
    (Number.sub 4 10, (4 - 10)%float);
    (Number.sub 317 (Number.lit (1001 # 10)), (317 - 1001 / 10)%float);
    (Number.div (Number.sub 317 (Number.lit (1001 # 10))) 723,
     ((317 - 1001 / 10) / 723)%float);
    (Number.div 31 100, (31 / 100)%float);
    (Number.mul 8 (- 40)%Q, (8 * - 40)%float);
    (Number.mul 8 (Number.lit (1 # 25)), (8 * (1 / 25))%float);
    (Number.sub 1 (Number.mul 8 (Number.lit (1 # 25))), (1 - 8 * (1 / 25))%float);
    (Number.sub 1 (Number.mul 2 (Number.lit (1 # 25))), (1 - 2 * (1 / 25))%float);
    (Number.round (Number.lit (1 # 10) + Number.lit (2 # 10)),
     (1 / 10 + 2 / 10)%float);
    (Number.round (1 # 3), (1 / 3)%float);
    (Number.round (- (2 # 3)), (- (2 / 3))%float);
    (Number.round 9007199254740993, (9007199254740992 + 1)%float);
    (Number.round 9007199254740995, (9007199254740994 + 1)%float) ]%Q.

End Binary64.

(* ===================================================================== *)
(** ** CustomVerticalDrawer.tsx: the drag gesture of one panel           *)
(* ===================================================================== *)

Module CustomVerticalDrawer.

(** A mouse or touch event; the recogniser reads its vertical coordinate. *)
Record PointerEvent : Type := mkEvent { clientY : Q }.

(** The calls a handler makes on the props of [Drawer.Root]. *)
Inductive Callback : Type :=
  | OnDrag (event : PointerEvent) (percentageDragged : Q)
  | OnRelease (event : PointerEvent) (open : bool)
  | OnOpenChange (open : bool).

(** The state of [Drawer.Root] ([isDragging], [dragOffset]) together with
    the refs of [Drawer.Content]. *)
Record DragState : Type := mkDrag {
  isDragging : bool;
  dragOffset : Q;
  dragStartY : option Q;
  initialHeight : Q;
  lastEventRef : option PointerEvent
}.

Definition initial : DragState :=
  {| isDragging := false; dragOffset := 0%Q; dragStartY := None;
     initialHeight := 0%Q; lastEventRef := None |}.

(** [a > b] on numbers. *)
Definition gt (a b : Q) : bool := negb (Qle_bool a b).

(** [Math.max(0, x)]. *)
Definition max0 (x : Q) : Q := if Qle_bool 0 x then x else 0%Q.

(** [contentRef] is the [offsetHeight] of the panel when it is mounted. *)
Definition handleDragStart (handleOnly : bool) (contentRef : option Q)
    (event : PointerEvent) (s : DragState) : DragState * list Callback :=
  if handleOnly then (s, [])
  else
    ({| isDragging := true;
        dragOffset := dragOffset s;
        dragStartY := Some (clientY event);
        initialHeight := default (initialHeight s) contentRef;
        lastEventRef := Some event |},
     [OnDrag event 0%Q]).

Definition handleDragMove (event : PointerEvent) (s : DragState)
  : DragState * list Callback :=
  match isDragging s, dragStartY s with
  | true, Some startY =>
      let deltaY := Number.sub (clientY event) startY in
      let clampedDelta := max0 deltaY in
      ({| isDragging := isDragging s;
          dragOffset := clampedDelta;
          dragStartY := dragStartY s;
          initialHeight := initialHeight s;
          lastEventRef := Some event |},
       if gt (initialHeight s) 0%Q
       then [OnDrag event (Number.div clampedDelta (initialHeight s))]
       else [])
  | _, _ => (s, [])
  end.

Definition handleDragEnd (event : option PointerEvent) (s : DragState)
  : DragState * list Callback :=
  if negb (isDragging s) then (s, [])
  else
    let finalEvent := match event with Some e => Some e | None => lastEventRef s end in
    let threshold := Number.mul (initialHeight s) (Number.lit (3 # 10)) in
    let shouldClose := gt (dragOffset s) threshold in
    ({| isDragging := false;
        dragOffset := if shouldClose then dragOffset s else 0%Q;
        dragStartY := None;
        initialHeight := initialHeight s;
        lastEventRef := None |},
     ((if shouldClose then [OnOpenChange false] else []) ++
      match finalEvent with
      | Some e => [OnRelease e (negb shouldClose)]
      | None => []
      end)%list).

(** A whole gesture on the panel body: press, the moves, release. *)
Definition gesture (contentRef : option Q) (press : PointerEvent)
    (moves : list PointerEvent) (release : PointerEvent) (s : DragState)
  : DragState * list Callback :=
  let s1 := (handleDragStart false contentRef press s).1 in
  let s2 := foldl (λ st e, (handleDragMove e st).1) s1 moves in
  handleDragEnd (Some release) s2.

(** What a gesture on the body has recorded while it lasts. *)
Definition tracking (startY height : Q) (s : DragState) : Prop :=
  isDragging s = true ∧ dragStartY s = Some startY ∧ initialHeight s = height.

(** *** The drag handle

    [Drawer.Handle] has refs of its own and shares [isDragging] and
    [dragOffset] with the content through the context of [Drawer.Root]. *)

Module DrawerHandle.

Record Refs : Type := mkRefs {
  handle_dragStartY : option Q;
  parentHeight : Q;
  handle_lastEventRef : option PointerEvent
}.


(** [contentEl] is the height of the enclosing panel when [closest] finds it. *)
Definition handleDragStart (contentEl : option Q) (event : PointerEvent)
    (s : DragState) (r : Refs) : DragState * Refs * list Callback :=
  ({| isDragging := true;
      dragOffset := dragOffset s;
      dragStartY := dragStartY s;
      initialHeight := initialHeight s;
      lastEventRef := lastEventRef s |},
   {| handle_dragStartY := Some (clientY event);
      parentHeight := default (parentHeight r) contentEl;
      handle_lastEventRef := Some event |},
   [OnDrag event 0%Q]).

Definition handleDragMove (event : PointerEvent) (s : DragState) (r : Refs)
  : DragState * Refs * list Callback :=
  match handle_dragStartY r with
  | None => (s, r, [])
  | Some startY =>
      let deltaY := Number.sub (clientY event) startY in
      let clampedDelta := max0 deltaY in
      ({| isDragging := isDragging s;
          dragOffset := clampedDelta;
          dragStartY := dragStartY s;
          initialHeight := initialHeight s;
          lastEventRef := lastEventRef s |},
       {| handle_dragStartY := handle_dragStartY r;
          parentHeight := parentHeight r;
          handle_lastEventRef := Some event |},
       if gt (parentHeight r) 0%Q
       then [OnDrag event (Number.div clampedDelta (parentHeight r))]
       else [])
  end.

Definition handleDragEnd (event : option PointerEvent) (s : DragState) (r : Refs)
  : DragState * Refs * list Callback :=
  let finalEvent :=
    match event with Some e => Some e | None => handle_lastEventRef r end in
  ({| isDragging := false;
      dragOffset := dragOffset s;
      dragStartY := dragStartY s;
      initialHeight := initialHeight s;
      lastEventRef := lastEventRef s |},
   {| handle_dragStartY := None;
      parentHeight := parentHeight r;
      handle_lastEventRef := None |},
   match finalEvent with
   | Some e => [OnRelease e true]
   | None => []
   end).

End DrawerHandle.




End CustomVerticalDrawer.

(* ===================================================================== *)
(** ** DrawerStack.tsx: the controller                                   *)
(* ===================================================================== *)

(** The transient state of the component: [openDrawers], [closingDrawers],
    [draggingDrawers]. *)
Record Transient : Type := mkTransient {
  openDrawers : list bool;
  closingDrawers : gset nat;
  draggingDrawers : gset nat
}.

(** [arr[i] = v] on a copy of [arr]: past the end the array grows, and the
    slots in between read as [undefined], which is [false] to every reader
    of [openDrawers]. *)
Definition assign_at (i : nat) (v : bool) (arr : list bool) : list bool :=
  if bool_decide (i < length arr) then <[i := v]> arr
  else (arr ++ replicate (i - length arr) false ++ [v])%list.

Definition animationDuration (isSafariIOS : bool) : nat :=
  if isSafariIOS then 300 else 250.

(** [xs.filter((_, i) => keep i)], the index counted from [i]. *)
Fixpoint filter_index_from {A} (keep : nat → bool) (i : nat) (xs : list A)
  : list A :=
  match xs with
  | [] => []
  | x :: xs' =>
      if keep i then x :: filter_index_from keep (S i) xs'
      else filter_index_from keep (S i) xs'
  end.

(** [xs.findIndex(p)], the index counted from [i]; [-1] when nothing is found. *)
Fixpoint findIndex_from {A} (p : A → bool) (i : Z) (xs : list A) : Z :=
  match xs with
  | [] => (-1)%Z
  | x :: xs' => if p x then i else findIndex_from p (i + 1)%Z xs'
  end.

(** [for (let i = from; i < to; i++) arr[i] = v]. *)
Definition assign_range (from to : nat) (v : bool) (arr : list bool) : list bool :=
  foldl (λ acc i, assign_at i v acc) arr (seq from (to - from)).

(** The updater of the effect that follows [drawerStack.length]: the new
    [openDrawers], and the update that the 10 ms timer applies to the
    state it then finds, when one is scheduled. *)
Definition syncOpenDrawers (stackLength : nat) (prev : list bool)
  : list bool * option (list bool → list bool) :=
  if bool_decide (length prev < stackLength) then
    (assign_range (length prev) stackLength false prev,
     Some (assign_range (length prev) stackLength true))
  else if bool_decide (stackLength < length prev) then
    (take stackLength prev, None)
  else (prev, None).

(** The effect and then its timer, nothing else in between. *)
Definition syncOpenDrawers_settled (stackLength : nat) (prev : list bool)
  : list bool :=
  let '(now, timer) := syncOpenDrawers stackLength prev in
  match timer with
  | Some opened => opened now
  | None => now
  end.

(** The effect is keyed on [drawerStack.length]: after a render in which
    the length is what it was, the flags are left alone. *)
Definition openDrawers_after_render (before after : nat) (flags : list bool)
  : list bool :=
  if bool_decide (before = after) then flags
  else syncOpenDrawers_settled after flags.

(** What the [style.transform] of a panel is set to. *)
Inductive Transform : Type :=
  | TransformNone
  | Offscreen
  | Stacked (translateY : Q) (scale : Q).

Section DrawerStack.

(** The hook values of the render that created the callbacks. *)
Variable location : Location.

(** The props [STACK_GAP] and [STACK_SQUEEZE] (40 and 0.04 when absent). *)
Variables STACK_GAP STACK_SQUEEZE : Q.

(** First, at once: the level is marked closing and its open flag flips. *)
Definition handleDrawerClose_mark (level : nat) (t : Transient) : Transient :=
  {| openDrawers := assign_at level false (openDrawers t);
     closingDrawers := closingDrawers t ∪ {[level]};
     draggingDrawers := draggingDrawers t |}.

(** Then, [animationDuration] later: the URL is changed. *)
Definition handleDrawerClose_timeout (level : nat) (b : Browser) : Browser :=
  if bool_decide (Z.of_nat level = (Z.of_nat (length (drawerStack location)) - 1)%Z)
  then popDrawerInternal location b
  else closeAllDrawers location b.

(** Last, 50 ms after that: the closing mark is removed. *)
Definition handleDrawerClose_cleanup (level : nat) (t : Transient) : Transient :=
  {| openDrawers := openDrawers t;
     closingDrawers := closingDrawers t ∖ {[level]};
     draggingDrawers := draggingDrawers t |}.

(** The whole close sequence, its timers elapsed in order: the mark, the
    URL step, the render that follows it with the effect on the stack
    length, and the removal of the mark. *)
Definition handleDrawerClose (level : nat) (w : Browser * Transient)
  : Browser * Transient :=
  let t1 := handleDrawerClose_mark level w.2 in
  let b2 := handleDrawerClose_timeout level w.1 in
  let t2 :=
    {| openDrawers :=
         openDrawers_after_render (length (drawerStack (render w.1)))
           (length (drawerStack (render b2))) (openDrawers t1);
       closingDrawers := closingDrawers t1;
       draggingDrawers := draggingDrawers t1 |} in
  (b2, handleDrawerClose_cleanup level t2).

(** The render of one panel. *)
Definition effectiveStack (t : Transient) : list DrawerStackItem :=
  filter_index_from (λ i, negb (bool_decide (i ∈ closingDrawers t))) 0
    (drawerStack location).

Definition effectiveIndex (t : Transient) (drawer : DrawerStackItem) : Z :=
  findIndex_from (λ d, String.eqb (id d) (id drawer)) 0%Z (effectiveStack t).

(** [effectiveStack.length - 1 - effectiveIndex]. *)
Definition depthFromTop (t : Transient) (drawer : DrawerStackItem) : Z :=
  (Z.of_nat (length (effectiveStack t)) - 1 - effectiveIndex t drawer)%Z.

Definition zIndex (index : nat) : nat := 50 + index.

Definition transform (t : Transient) (index : nat) (drawer : DrawerStackItem)
  : Transform :=
  let isDragging := bool_decide (index ∈ draggingDrawers t) in
  if isDragging then TransformNone
  else if negb (default false (openDrawers t !! index)) then Offscreen
  else
    Stacked (Number.mul (inject_Z (depthFromTop t drawer)) (- STACK_GAP)%Q)
            (Number.sub 1%Q
               (Number.mul (inject_Z (depthFromTop t drawer)) STACK_SQUEEZE)).

(** The depth of the panel at [index], when the stack has one there. *)
Definition depthAt (t : Transient) (index : nat) : option Z :=
  depthFromTop t <$> drawerStack location !! index.

End DrawerStack.


(* ===================================================================== *)
(** ** Sample inputs                                                     *)
(* ===================================================================== *)

(** A browser at [/home] with the given query string and no history. *)
Definition browser_at (sp : URLSearchParams.t) : Browser :=
  {| window_location := {| pathname := "/home"; search := sp |}; history := [] |}.

(** Three drawers open over [/home?tab=1]. *)
Definition three_drawers : Browser :=
  browser_at [("tab", "1"); ("drawer", "/a"); ("drawer", "/b"); ("drawer", "/c")].

(** Three panels open, none closing, none dragged. *)
Definition three_open : Transient :=
  {| openDrawers := [true; true; true];
     closingDrawers := ∅;
     draggingDrawers := ∅ |}.

(** Nine drawers open over [/home], their panels all open. *)
Definition nine_drawers : Browser :=
  browser_at ((λ p, ("drawer", p)) <$>
    ["/a"; "/b"; "/c"; "/d"; "/e"; "/f"; "/g"; "/h"; "/i"]).

Definition nine_open : Transient :=
  {| openDrawers := replicate 9 true;
     closingDrawers := ∅;
     draggingDrawers := ∅ |}.

(** The route tree of the README, its views numbered. *)
Definition routeConfig : list (RouteObject.t nat) :=
  [RouteObject.mk (Some "/") (Some 0)
     [RouteObject.mk (Some "") (Some 1) [];
      RouteObject.mk (Some "profile") (Some 2) [];
      RouteObject.mk (Some "settings") (Some 3) []]].

(** A panel 100 px high, dragged down by [offset] px and not yet released. *)
Definition dragged_by (offset : Q) : CustomVerticalDrawer.DragState :=
  {| CustomVerticalDrawer.isDragging := true;
     CustomVerticalDrawer.dragOffset := offset;
     CustomVerticalDrawer.dragStartY := Some 10%Q;
     CustomVerticalDrawer.initialHeight := 100%Q;
     CustomVerticalDrawer.lastEventRef := None |}.

(** A layout without a view at [/], a profile page and its edit page. *)
Definition profileRoutes : list (RouteObject.t nat) :=
  [RouteObject.mk (Some "/") None
     [RouteObject.mk (Some "profile") (Some 2)
        [RouteObject.mk (Some "edit") (Some 3) []]]].

(* ===================================================================== *)
(** ** The specification's reading of resolution                         *)
(* ===================================================================== *)

(** An entry of the flattened list matches a path when it has a pattern
    and the pattern matches the whole path. *)
Definition entry_match {View : Type}
    (matchPath : string → bool → string → option PathMatch.t)
    (pathname : string) (route : RouteObject.t View) : option PathMatch.t :=
  match RouteObject.path route with
  | Some pattern =>
      if String.eqb pattern "" then None else matchPath pattern true pathname
  | None => None
  end.


(* ===================================================================== *)
(** ** routeUtils.ts: the shape of a route tree                          *)
(* ===================================================================== *)

(** The nodes of a route in pre-order: the route, then those of its
    children, in declared order. *)
Fixpoint nodes {View : Type} (route : RouteObject.t View)
  : list (RouteObject.t View) :=
  route :: flat_map nodes (RouteObject.children route).

(** No two slashes of [s] are adjacent. *)
Fixpoint no_double_slash (s : string) : bool :=
  match s with
  | String a s' =>
      match s' with
      | String b _ =>
          negb (Ascii.eqb a "/" && Ascii.eqb b "/") && no_double_slash s'
      | "" => true
      end
  | "" => true
  end.

(** [s] has no occurrence of [c]. *)
Fixpoint free_of (c : ascii) (s : string) : bool :=
  match s with
  | "" => true
  | String a s' => negb (Ascii.eqb a c) && free_of c s'
  end.

(* ===================================================================== *)
(** ** DrawerStack.tsx: the rest of the controller                       *)
(* ===================================================================== *)

(** What a pointer-down outside a panel is on, as the handlers ask the
    document: inside the panel's own content, inside the content of another
    drawer, on an overlay, inside the toast container (when there is one). *)
Record PointerDown : Type := mkPointerDown {
  in_own_content : bool;
  in_other_drawer : bool;
  on_overlay : bool;
  in_toast : bool
}.

Section DrawerStack_handlers.

(** The hook values of the render that created the callbacks. *)
Variable location : Location.

(** The URL step of the close sequence in the first [DrawerStack.tsx],
    which takes [popDrawer] from the hook. *)
Definition handleDrawerClose_timeout_v1 (level : nat) (b : Browser) : Browser :=
  if bool_decide (Z.of_nat level = (Z.of_nat (length (drawerStack location)) - 1)%Z)
  then popDrawer location b
  else closeAllDrawers location b.

(** The listener of the [popDrawerAnimated] event; [level] is whatever the
    event carries. *)
Definition handlePopDrawerAnimated (level : Z) (w : Browser * Transient)
  : Browser * Transient :=
  if bool_decide (0 ≤ level)%Z &&
     bool_decide (level < Z.of_nat (length (drawerStack location)))%Z
  then handleDrawerClose location (Z.to_nat level) w
  else w.




(** [onPointerDownOutside] of the panel at [index]: whether the default is
    prevented afterwards, and the levels it passes to [handleDrawerClose]. *)
Definition onPointerDownOutside (index : nat) (ev : PointerDown)
  : bool * list nat :=
  (true,
   if in_toast ev then []
   else if bool_decide (Z.of_nat index = (Z.of_nat (length (drawerStack location)) - 1)%Z)
   then [index]
   else []).

(** [onInteractOutside]: both branches prevent the default. *)
Definition onInteractOutside (ev : PointerDown) (defaultPrevented : bool) : bool :=
  if in_toast ev then true else true.

(** [handlePointerDown] of [CustomVerticalDrawer.tsx] with the props that
    [DrawerStack.tsx] passes for the panel at [index]: the levels for which
    [handleDrawerClose] is called.  [open] is the panel's prop, [mounted]
    tells whether its content element exists. *)
Definition handlePointerDown (index : nat) (open mounted : bool) (ev : PointerDown)
  : list nat :=
  if negb open || negb mounted then []
  else if in_other_drawer ev then []
  else if negb (in_own_content ev) || on_overlay ev then
    let '(prevented, closes) := onPointerDownOutside index ev in
    let prevented := onInteractOutside ev prevented in
    if in_toast ev then closes
    else if negb prevented then (closes ++ [index])%list
    else closes
  else [].

End DrawerStack_handlers.

(* ===================================================================== *)
(** ** CustomVerticalDrawer.tsx: every call of a gesture                 *)
(* ===================================================================== *)

(** One move of a gesture, the calls so far carried along. *)
Definition move_logged
    (acc : CustomVerticalDrawer.DragState * list CustomVerticalDrawer.Callback)
    (e : CustomVerticalDrawer.PointerEvent)
  : CustomVerticalDrawer.DragState * list CustomVerticalDrawer.Callback :=
  let '(s', calls) := CustomVerticalDrawer.handleDragMove e acc.1 in
  (s', (acc.2 ++ calls)%list).

(** A whole gesture on the panel body with every call it makes, in order. *)
Definition gesture_logged (contentRef : option Q)
    (press : CustomVerticalDrawer.PointerEvent)
    (moves : list CustomVerticalDrawer.PointerEvent)
    (release : CustomVerticalDrawer.PointerEvent)
    (s : CustomVerticalDrawer.DragState)
  : CustomVerticalDrawer.DragState * list CustomVerticalDrawer.Callback :=
  let started := CustomVerticalDrawer.handleDragStart false contentRef press s in
  let moved := foldl move_logged started moves in
  let '(s', calls) := CustomVerticalDrawer.handleDragEnd (Some release) moved.1 in
  (s', (moved.2 ++ calls)%list).


(* ===================================================================== *)
(** * Properties                                                         *)
(* ===================================================================== *)

(** ** URLSearchParams algebra *)

Section URLSearchParams_facts.

Import URLSearchParams.

Implicit Types (sp : URLSearchParams.t) (k v : string) (xs : list string).

Lemma getAll_app k sp1 sp2 :
  getAll k (sp1 ++ sp2)%list = (getAll k sp1 ++ getAll k sp2)%list.
Proof. unfold getAll. by rewrite filter_app, fmap_app. Qed.

Lemma delete_app k sp1 sp2 :
  delete k (sp1 ++ sp2)%list = (delete k sp1 ++ delete k sp2)%list.
Proof. unfold delete. by rewrite filter_app. Qed.

Lemma getAll_delete k sp : getAll k (delete k sp) = [].
Proof.
  unfold getAll, delete. induction sp as [|[k' v'] sp IH]; [done|].
  rewrite filter_cons. case_decide as Hk; simpl in *; [|done].
  rewrite filter_cons. case_decide; simpl in *; [congruence|done].
Qed.

Lemma getAll_delete_ne k k' sp : k ≠ k' → getAll k (delete k' sp) = getAll k sp.
Proof.
  intros Hne. unfold getAll, delete.
  induction sp as [|[k0 v0] sp IH]; [done|].
  rewrite !filter_cons. simpl.
  repeat (case_decide; simplify_eq/=); rewrite ?filter_cons; simpl;
    repeat (case_decide; simplify_eq/=); by rewrite ?IH.
Qed.

Lemma delete_delete k sp : delete k (delete k sp) = delete k sp.
Proof.
  unfold delete. induction sp as [|[k' v'] sp IH]; [done|].
  rewrite filter_cons. case_decide; [|done].
  rewrite filter_cons. case_decide; [|done]. by rewrite IH.
Qed.

Lemma delete_absent k sp : getAll k sp = [] → delete k sp = sp.
Proof.
  unfold getAll, delete. induction sp as [|[k' v'] sp IH]; [done|].
  rewrite !filter_cons. simpl.
  repeat (case_decide; simplify_eq/=); try done.
  intros Hnone. by rewrite IH.
Qed.

Lemma appendEach_pairs k xs sp :
  appendEach k xs sp = (sp ++ (pair k <$> xs))%list.
Proof.
  unfold appendEach, append. revert sp.
  induction xs as [|x xs IH]; intros sp; simpl.
  - by rewrite app_nil_r.
  - by rewrite IH, <- app_assoc.
Qed.

Lemma getAll_pairs k xs : getAll k (pair k <$> xs) = xs.
Proof.
  unfold getAll. induction xs as [|x xs IH]; [done|].
  rewrite fmap_cons, filter_cons.
  case_decide as Hk; [|by destruct Hk].
  rewrite fmap_cons. simpl. by f_equal.
Qed.

Lemma delete_pairs k xs : delete k (pair k <$> xs) = [].
Proof.
  unfold delete. induction xs as [|x xs IH]; [done|].
  rewrite fmap_cons, filter_cons. by case_decide.
Qed.

Lemma getAll_rebuilt k xs sp : getAll k (appendEach k xs (delete k sp)) = xs.
Proof. by rewrite appendEach_pairs, getAll_app, getAll_delete, getAll_pairs. Qed.

Lemma delete_rebuilt k xs sp : delete k (appendEach k xs (delete k sp)) = delete k sp.
Proof.
  by rewrite appendEach_pairs, delete_app, delete_delete, delete_pairs, app_nil_r.
Qed.

End URLSearchParams_facts.

Lemma slice_0_m1_snoc {A} (xs : list A) (x : A) : slice_0_m1 (xs ++ [x]) = xs.
Proof.
  unfold slice_0_m1. rewrite length_app. simpl.
  replace (length xs + 1 - 1) with (length xs) by lia.
  by rewrite take_app_length.
Qed.

(** ** The derived stack *)

Lemma mapi_from_length {A B} (f : A → nat → B) i xs :
  length (mapi_from f i xs) = length xs.
Proof. revert i. induction xs as [|x xs IH]; intros i; simpl; [done|]. by rewrite IH. Qed.

Lemma mapi_from_lookup {A B} (f : A → nat → B) i xs j :
  mapi_from f i xs !! j = (λ x, f x (i + j)) <$> xs !! j.
Proof.
  revert i j. induction xs as [|x xs IH]; intros i j; [done|].
  destruct j as [|j]; simpl.
  - by rewrite Nat.add_0_r.
  - rewrite IH. by replace (S i + j) with (i + S j) by lia.
Qed.

Lemma mapi_from_fmap {A B C} (g : B → C) (f : A → nat → B) i xs :
  g <$> mapi_from f i xs = mapi_from (λ x j, g (f x j)) i xs.
Proof. revert i. induction xs as [|x xs IH]; intros i; simpl; [done|]. by rewrite IH. Qed.

Lemma mapi_from_const {A} i (xs : list A) : mapi_from (λ x _, x) i xs = xs.
Proof. revert i. induction xs as [|x xs IH]; intros i; simpl; [done|]. by rewrite IH. Qed.

Lemma mapi_from_index {A B} (f : nat → B) i (xs : list A) :
  mapi_from (λ _ j, f j) i xs = f <$> seq i (length xs).
Proof. revert i. induction xs as [|x xs IH]; intros i; simpl; [done|]. by rewrite IH. Qed.

Lemma drawerStack_lookup (location : Location) (i : nat) :
  drawerStack location !! i =
  (λ p, {| id := "drawer-" +:+ pretty i; path := p; level := Z.of_nat i |})
    <$> URLSearchParams.getAll "drawer" (search location) !! i.
Proof. unfold drawerStack, searchParams. by rewrite mapi_from_lookup. Qed.

Lemma drawerStack_length (location : Location) :
  length (drawerStack location) =
  length (URLSearchParams.getAll "drawer" (search location)).
Proof. unfold drawerStack. by rewrite mapi_from_length. Qed.

(** C1. For every persisted list the derived stack has as many entries as
    the list, and its entry at index [i] is
    [{id: "drawer-" + i, path: p[i], level: i}]; hence, after any sequence
    of push / pop / closeAll / replaceTop / replaceAll mutations, the levels
    are exactly [0 .. n-1] and the paths are the persisted list. *)
Theorem drawerStack_mirrors_persisted :
  (∀ location : Location,
     let p := URLSearchParams.getAll "drawer" (search location) in
     length (drawerStack location) = length p ∧
     ∀ i : nat,
       drawerStack location !! i =
       (λ x, {| id := "drawer-" +:+ pretty i; path := x; level := Z.of_nat i |})
         <$> p !! i) ∧
  (∀ (b : Browser) (ms : list Mutation),
     let b' := mutations b ms in
     let stack := drawerStack (render b') in
     length stack = length (persisted b') ∧
     level <$> stack = Z.of_nat <$> seq 0 (length (persisted b')) ∧
     path <$> stack = persisted b' ∧
     id <$> stack = (λ i : nat, "drawer-" +:+ pretty i) <$> seq 0 (length (persisted b'))).
Proof.
  split.
  - intros location p. split; [apply drawerStack_length|].
    intros i. apply drawerStack_lookup.
  - intros b ms b' stack. subst stack. unfold persisted, render.
    generalize (window_location b'). intros location.
    split; [apply drawerStack_length|].
    unfold drawerStack, searchParams.
    rewrite !mapi_from_fmap. simpl.
    rewrite mapi_from_const.
    by rewrite (mapi_from_index Z.of_nat), (mapi_from_index drawer_id).
Qed.

(** ** The mutators on the persisted list *)

Lemma persisted_pushDrawer (location : Location) (p : string) (b : Browser) :
  persisted (pushDrawer location p b) = (persisted b ++ [p])%list.
Proof.
  unfold persisted, pushDrawer, navigate, URLSearchParams.append. simpl.
  by rewrite getAll_app.
Qed.

Lemma persisted_popDrawer (b : Browser) :
  persisted (popDrawer (render b) b) = slice_0_m1 (persisted b).
Proof.
  unfold popDrawer, persisted, render, searchParams.
  case_bool_decide as Hlen; simpl.
  - by destruct (URLSearchParams.getAll "drawer" (search (window_location b))).
  - apply getAll_rebuilt.
Qed.

Lemma persisted_closeAllDrawers (location : Location) (b : Browser) :
  persisted (closeAllDrawers location b) = [].
Proof. unfold persisted, closeAllDrawers. simpl. apply getAll_delete. Qed.

Lemma persisted_replaceDrawer (p : string) (b : Browser) :
  persisted (replaceDrawer (render b) p b) = (slice_0_m1 (persisted b) ++ [p])%list.
Proof.
  unfold replaceDrawer, persisted, render, searchParams, URLSearchParams.append.
  simpl. case_bool_decide as Hlen.
  - rewrite getAll_app, getAll_delete.
    by destruct (URLSearchParams.getAll "drawer" (search (window_location b))).
  - by rewrite getAll_app, getAll_rebuilt.
Qed.

Lemma persisted_replaceDrawerStack (location : Location) (ps : list string)
    (b : Browser) :
  persisted (replaceDrawerStack location ps b) = ps.
Proof. unfold persisted, replaceDrawerStack. simpl. apply getAll_rebuilt. Qed.

(** [closeAllDrawers] has no guard for the empty stack: it navigates in
    every case, so the history grows by the entry it was at. *)
Lemma closeAllDrawers_always_navigates (location : Location) (b : Browser) :
  history (closeAllDrawers location b) = window_location b :: history b.
Proof. done. Qed.

(** C7.  [pop()] removes exactly the last element of the persisted list
    and leaves the browser as it is when the list is empty, and a second
    [closeAll()] leaves the persisted list as the first one did; but
    [closeAll()] on an empty stack is not a no-op: it navigates to the
    location it is at, which pushes a history entry, so the browser after
    the call is not the browser before it. *)
Theorem closeAll_on_empty_pushes_history (b : Browser) :
  (∀ (l : list string) (x : string),
     persisted b = (l ++ [x])%list → persisted (mutate b Pop) = l) ∧
  (persisted b = [] → mutate b Pop = b) ∧
  (persisted b = [] →
     window_location (mutate b CloseAll) = window_location b ∧
     history (mutate b CloseAll) = window_location b :: history b ∧
     mutate b CloseAll ≠ b) ∧
  persisted (mutate (mutate b CloseAll) CloseAll) = persisted (mutate b CloseAll).
Proof.
  split; [|split; [|split]].
  - intros l x Hp. simpl. by rewrite persisted_popDrawer, Hp, slice_0_m1_snoc.
  - intros Hp. simpl. unfold popDrawer, searchParams, render.
    unfold persisted in Hp. by rewrite Hp.
  - intros Hp.
    assert (Hloc : window_location (mutate b CloseAll) = window_location b).
    { simpl. unfold closeAllDrawers, render, searchParams, persisted in *. simpl.
      rewrite delete_absent by done. by destruct (window_location b). }
    split; [done|]. split; [apply closeAllDrawers_always_navigates|].
    intros Hsame. apply (f_equal (λ x, length (history x))) in Hsame.
    simpl in Hsame. lia.
  - simpl. by rewrite !persisted_closeAllDrawers.
Qed.

Lemma closeAll_on_empty_pushes_history_witness :
  persisted (mutate (browser_at [("tab", "1"); ("drawer", "/a"); ("drawer", "/b")]) Pop)
    = ["/a"] ∧
  mutate (browser_at [("tab", "1")]) Pop = browser_at [("tab", "1")] ∧
  history (mutate (browser_at [("tab", "1")]) CloseAll)
    = [{| pathname := "/home"; search := [("tab", "1")] |}] ∧
  mutate (browser_at [("tab", "1")]) CloseAll ≠ browser_at [("tab", "1")].
Proof.
  split; [|split; [|split]].
  - apply (proj1 (closeAll_on_empty_pushes_history
                    (browser_at [("tab", "1"); ("drawer", "/a"); ("drawer", "/b")]))
             ["/a"] "/b").
    reflexivity.
  - apply (proj1 (proj2 (closeAll_on_empty_pushes_history (browser_at [("tab", "1")])))).
    reflexivity.
  - apply (proj1 (proj2 (proj2
      (closeAll_on_empty_pushes_history (browser_at [("tab", "1")])))) eq_refl).
  - apply (proj1 (proj2 (proj2
      (closeAll_on_empty_pushes_history (browser_at [("tab", "1")])))) eq_refl).
Defined.

(** C8. [push(path)] appends [path] to the list found in the live URL at
    call time, whatever the render that created the callback had read, and
    whether or not [path] is already open; from the empty state, pushing
    [/a] then [/b] gives [[/a, /b]] with [/b] on top, and one [pop()]
    gives [[/a]]. *)
Theorem push_appends_to_live_list (b : Browser) :
  (∀ (stale : Location) (p : string),
     persisted (pushDrawer stale p b) = (persisted b ++ [p])%list) ∧
  (∀ (stale : Location) (p : string),
     persisted (pushDrawer stale p (pushDrawer stale p b))
     = (persisted b ++ [p; p])%list) ∧
  (persisted b = [] →
     let b2 := mutations b [Push "/a"; Push "/b"] in
     persisted (pushDrawer (render b) "/b" (pushDrawer (render b) "/a" b))
       = ["/a"; "/b"] ∧
     persisted b2 = ["/a"; "/b"] ∧
     path <$> currentDrawer (render b2) = Some "/b" ∧
     persisted (mutate b2 Pop) = ["/a"]).
Proof.
  split; [|split].
  - intros stale p. apply persisted_pushDrawer.
  - intros stale p. by rewrite !persisted_pushDrawer, <- app_assoc.
  - intros Hp b2.
    assert (Hb2 : persisted b2 = ["/a"; "/b"]).
    { subst b2. simpl. by rewrite !persisted_pushDrawer, Hp. }
    clearbody b2. split; [|split; [|split]].
    + by rewrite !persisted_pushDrawer, Hp.
    + done.
    + unfold currentDrawer, drawerStack, searchParams, render.
      unfold persisted in Hb2. by rewrite Hb2.
    + unfold mutate. by rewrite persisted_popDrawer, Hb2.
Qed.

Lemma push_appends_to_live_list_witness :
  let b2 := mutations (browser_at [("tab", "1")]) [Push "/a"; Push "/b"] in
  persisted b2 = ["/a"; "/b"] ∧
  path <$> currentDrawer (render b2) = Some "/b" ∧
  persisted (mutate b2 Pop) = ["/a"].
Proof.
  apply (proj2 (proj2 (proj2 (push_appends_to_live_list (browser_at [("tab", "1")])))
                  eq_refl)).
Defined.

(** C9. [replaceTop(path)] swaps the last element of the persisted list
    for [path] and keeps the elements before it, in order; on an empty
    list it appends, so [replaceTop('/x')] gives [['/x']]. *)
Theorem replaceDrawer_replaces_last (b : Browser) (p : string) :
  (∀ (l : list string) (x : string),
     persisted b = (l ++ [x])%list →
     persisted (mutate b (ReplaceTop p)) = (l ++ [p])%list) ∧
  (persisted b = [] → persisted (mutate b (ReplaceTop p)) = [p]).
Proof.
  split.
  - intros l x Hp. simpl. by rewrite persisted_replaceDrawer, Hp, slice_0_m1_snoc.
  - intros Hp. simpl. by rewrite persisted_replaceDrawer, Hp.
Qed.

Lemma replaceDrawer_replaces_last_witness :
  persisted (mutate (browser_at [("drawer", "/a"); ("tab", "1"); ("drawer", "/b")])
               (ReplaceTop "/x")) = ["/a"; "/x"] ∧
  persisted (mutate (browser_at [("tab", "1")]) (ReplaceTop "/x")) = ["/x"].
Proof.
  split.
  - apply (proj1 (replaceDrawer_replaces_last
                    (browser_at [("drawer", "/a"); ("tab", "1"); ("drawer", "/b")])
                    "/x") ["/a"] "/b").
    reflexivity.
  - apply (proj2 (replaceDrawer_replaces_last (browser_at [("tab", "1")]) "/x")).
    reflexivity.
Defined.

(** C10. Every mutator navigates to a location with the pathname it was
    at, and with the same parameters under every name other than
    [drawer], in the same order. *)
Theorem mutators_touch_only_drawer (b : Browser) (m : Mutation) :
  let before := window_location b in
  let after := window_location (mutate b m) in
  pathname after = pathname before ∧
  filter (λ kv, kv.1 ≠ "drawer") (search after)
    = filter (λ kv, kv.1 ≠ "drawer") (search before) ∧
  ∀ k : string, k ≠ "drawer" →
    URLSearchParams.getAll k (search after) = URLSearchParams.getAll k (search before).
Proof.
  intros before after. subst before after.
  assert (Hfilter :
    pathname (window_location (mutate b m)) = pathname (window_location b) ∧
    URLSearchParams.delete "drawer" (search (window_location (mutate b m)))
      = URLSearchParams.delete "drawer" (search (window_location b))).
  { destruct m as [p| | |p|ps]; simpl;
      unfold pushDrawer, popDrawer, closeAllDrawers, replaceDrawer,
        replaceDrawerStack, render, searchParams, URLSearchParams.append; simpl.
    - split; [done|]. rewrite delete_app. simpl.
      unfold URLSearchParams.delete at 2. by rewrite app_nil_r.
    - case_bool_decide; simpl; [done|]. by rewrite delete_rebuilt.
    - by rewrite delete_delete.
    - split; [done|]. case_bool_decide.
      + rewrite delete_app, delete_delete.
        unfold URLSearchParams.delete at 2. by rewrite app_nil_r.
      + rewrite delete_app, delete_rebuilt.
        unfold URLSearchParams.delete at 2. by rewrite app_nil_r.
    - by rewrite delete_rebuilt. }
  destruct Hfilter as [Hpath Hdel]. split; [done|]. split; [done|].
  intros k Hk.
  rewrite <- (getAll_delete_ne k "drawer" (search (window_location (mutate b m)))) by done.
  rewrite Hdel. by apply getAll_delete_ne.
Qed.

Lemma mutators_touch_only_drawer_witness :
  URLSearchParams.getAll "tab"
    (search (window_location
       (mutate (browser_at [("drawer", "/a"); ("tab", "1"); ("drawer", "/b")]) Pop)))
  = ["1"].
Proof.
  apply (proj2 (proj2 (mutators_touch_only_drawer
           (browser_at [("drawer", "/a"); ("tab", "1"); ("drawer", "/b")]) Pop)) "tab").
  discriminate.
Defined.

(** ** The close sequence *)

Lemma handleDrawerClose_timeout_below_top (location : Location) (level : nat)
    (b : Browser) :
  Z.of_nat level ≠ (Z.of_nat (length (drawerStack location)) - 1)%Z →
  handleDrawerClose_timeout location level b = closeAllDrawers location b.
Proof. intros Hne. unfold handleDrawerClose_timeout. by case_bool_decide. Qed.

(** C2. What the code does when level 1 of a three-level stack is closed:
    the URL mutation of the close sequence is [closeAllDrawers], so the
    persisted list comes out empty; level 0 does not survive. *)
Theorem mid_stack_close_empties_the_stack (b : Browser) (t : Transient)
    (p0 p1 p2 : string) :
  persisted b = [p0; p1; p2] →
  handleDrawerClose_timeout (render b) 1 b = closeAllDrawers (render b) b ∧
  persisted (handleDrawerClose_timeout (render b) 1 b) = [] ∧
  persisted (handleDrawerClose (render b) 1 (b, t)).1 = [] ∧
  persisted (handleDrawerClose (render b) 1 (b, t)).1 ≠ [p0].
Proof.
  intros Hp.
  assert (Hclose :
    handleDrawerClose_timeout (render b) 1 b = closeAllDrawers (render b) b).
  { apply handleDrawerClose_timeout_below_top.
    rewrite drawerStack_length. unfold persisted, render in *. by rewrite Hp. }
  unfold handleDrawerClose. simpl. rewrite Hclose, persisted_closeAllDrawers.
  done.
Qed.

Lemma mid_stack_close_empties_the_stack_witness :
  persisted (handleDrawerClose (render three_drawers) 1 (three_drawers, three_open)).1
  = [].
Proof.
  apply (proj1 (proj2 (proj2
    (mid_stack_close_empties_the_stack three_drawers three_open "/a" "/b" "/c"
       eq_refl)))).
Defined.

(** ** Depth over the effective stack *)

(** C4, as the code has it.  In a three-level stack with nothing closing,
    marking the middle level as closing leaves the URL alone, keeps the top
    level at depth 0, and lowers the depth of the bottom level, the one
    beneath the closing panel, from 2 to 1. *)
Theorem closing_middle_lowers_bottom_depth (location : Location) (t : Transient)
    (p0 p1 p2 : string) :
  URLSearchParams.getAll "drawer" (search location) = [p0; p1; p2] →
  closingDrawers t = ∅ →
  let t' := handleDrawerClose_mark 1 t in
  depthAt location t 2 = Some 0%Z ∧ depthAt location t' 2 = Some 0%Z ∧
  depthAt location t 0 = Some 2%Z ∧ depthAt location t' 0 = Some 1%Z ∧
  path <$> effectiveStack location t' = [p0; p2] ∧
  effectiveIndex location t <$> drawerStack location !! 2 = Some 2%Z ∧
  effectiveIndex location t' <$> drawerStack location !! 2 = Some 1%Z.
Proof.
  intros Hp Hc t'. subst t'.
  unfold depthAt, depthFromTop, effectiveIndex, effectiveStack,
    handleDrawerClose_mark, drawerStack, searchParams.
  rewrite Hp. simpl. rewrite Hc. by vm_compute.
Qed.

Lemma closing_middle_lowers_bottom_depth_witness :
  depthAt (render three_drawers) three_open 0 = Some 2%Z ∧
  depthAt (render three_drawers) (handleDrawerClose_mark 1 three_open) 0 = Some 1%Z.
Proof.
  pose proof (closing_middle_lowers_bottom_depth (render three_drawers) three_open
                "/a" "/b" "/c" eq_refl eq_refl) as H.
  exact (conj (proj1 (proj2 (proj2 H))) (proj1 (proj2 (proj2 (proj2 H))))).
Defined.

(** C4, as stated, fails: with the middle of three levels closing, the
    depth of the top level is what it was, not one less. *)
Lemma closing_middle_top_depth_unchanged :
  ¬ ∃ d : Z,
      depthAt (render three_drawers) three_open 2 = Some d ∧
      depthAt (render three_drawers) (handleDrawerClose_mark 1 three_open) 2
      = Some (d - 1)%Z.
Proof.
  intros [d [Hbefore Hafter]].
  vm_compute in Hbefore. vm_compute in Hafter.
  destruct d; discriminate.
Qed.

(** ** Rounding *)

(** The scaling step of [round_pos] leaves a quotient of at least 1. *)
Lemma round_pos_scaled (n d : positive) :
  let e0 := (Z.log2 (Zpos n) - Z.log2 (Zpos d) - 53)%Z in
  let N := if (0 <=? e0)%Z then Zpos n else (Zpos n * 2 ^ (- e0))%Z in
  let D0 := if (0 <=? e0)%Z then (Zpos d * 2 ^ e0)%Z else Zpos d in
  (0 < D0 <= N)%Z.
Proof.
  intros e0 N D0.
  pose proof (Z.log2_spec (Zpos n) ltac:(lia)) as [Hn1 Hn2].
  pose proof (Z.log2_spec (Zpos d) ltac:(lia)) as [Hd1 Hd2].
  pose proof (Z.log2_nonneg (Zpos n)) as Hln.
  pose proof (Z.log2_nonneg (Zpos d)) as Hld.
  subst N D0. destruct (0 <=? e0)%Z eqn:He.
  - apply Z.leb_le in He.
    assert (Hp : (0 < 2 ^ e0)%Z) by (apply Z.pow_pos_nonneg; lia).
    split; [lia|].
    assert (H1 : (Zpos d * 2 ^ e0 < 2 ^ Z.succ (Z.log2 (Zpos d)) * 2 ^ e0)%Z)
      by (apply Z.mul_lt_mono_pos_r; lia).
    rewrite <- Z.pow_add_r in H1 by lia.
    assert (H2 : (2 ^ (Z.succ (Z.log2 (Zpos d)) + e0) <= 2 ^ Z.log2 (Zpos n))%Z)
      by (apply Z.pow_le_mono_r; lia).
    lia.
  - apply Z.leb_gt in He. split; [lia|].
    assert (Hp : (0 < 2 ^ (- e0))%Z) by (apply Z.pow_pos_nonneg; lia).
    assert (H1 : (2 ^ Z.log2 (Zpos n) * 2 ^ (- e0) <= Zpos n * 2 ^ (- e0))%Z)
      by (apply Z.mul_le_mono_nonneg_r; lia).
    rewrite <- Z.pow_add_r in H1 by lia.
    assert (H2 : (2 ^ Z.succ (Z.log2 (Zpos d)) <= 2 ^ (Z.log2 (Zpos n) + - e0))%Z)
      by (apply Z.pow_le_mono_r; lia).
    lia.
Qed.

(** Rounding never takes a positive number to zero or below. *)
Lemma round_pos_positive (n d : positive) : (0 < Number.round_pos n d)%Q.
Proof.
  unfold Number.round_pos.
  pose proof (round_pos_scaled n d) as HND. cbv zeta in HND.
  set (e0 := (Z.log2 (Zpos n) - Z.log2 (Zpos d) - 53)%Z) in *.
  set (N := if (0 <=? e0)%Z then Zpos n else (Zpos n * 2 ^ (- e0))%Z) in *.
  set (D0 := if (0 <=? e0)%Z then (Zpos d * 2 ^ e0)%Z else Zpos d) in *.
  set (e := if (2 ^ 53 <=? N / D0)%Z then (e0 + 1)%Z else e0).
  set (D := if (2 ^ 53 <=? N / D0)%Z then (2 * D0)%Z else D0).
  assert (HD : (0 < D <= N)%Z).
  { subst D. destruct (2 ^ 53 <=? N / D0)%Z eqn:Hq; [|lia].
    apply Z.leb_le in Hq.
    assert (H53 : (2 ^ 53 * D0 <= N)%Z).
    { pose proof (Z.mul_div_le N D0 ltac:(lia)).
      assert ((D0 * 2 ^ 53 <= D0 * (N / D0))%Z)
        by (apply Z.mul_le_mono_nonneg_l; lia).
      lia. }
    assert ((2 <= 2 ^ 53)%Z)
      by (change 2%Z with (2 ^ 1)%Z at 1; apply Z.pow_le_mono_r; lia).
    nia. }
  assert (Hm : (1 <= N / D)%Z) by (apply Z.div_le_lower_bound; lia).
  set (m := (N / D)%Z) in *.
  assert (Hm' : (0 < match (2 * (N mod D) ?= D)%Z with
                     | Lt => m
                     | Gt => m + 1
                     | Eq => if Z.even m then m else m + 1
                     end)%Z).
  { destruct (2 * (N mod D) ?= D)%Z; [destruct (Z.even m)|..]; lia. }
  set (m' := match (2 * (N mod D) ?= D)%Z with
             | Lt => m
             | Gt => (m + 1)%Z
             | Eq => if Z.even m then m else (m + 1)%Z
             end) in *.
  destruct (0 <=? e)%Z eqn:He.
  - apply Z.leb_le in He. unfold Qlt, inject_Z. simpl.
    assert (0 < 2 ^ e)%Z by (apply Z.pow_pos_nonneg; lia). nia.
  - unfold Qlt. simpl. lia.
Qed.


Lemma round_nonneg (x : Q) : (0 <= x)%Q → (0 <= Number.round x)%Q.
Proof.
  destruct x as [[|n|n] d]; unfold Number.round; simpl; intros Hx.
  - apply Qle_refl.
  - apply Qlt_le_weak, round_pos_positive.
  - unfold Qle in Hx. simpl in Hx. lia.
Qed.

Lemma round_nonpos (x : Q) : (x <= 0)%Q → (Number.round x <= 0)%Q.
Proof.
  destruct x as [[|n|n] d]; unfold Number.round; simpl; intros Hx.
  - apply Qle_refl.
  - unfold Qle in Hx. simpl in Hx. lia.
  - pose proof (round_pos_positive n d). lra.
Qed.

(** [0 * y] is [0], whatever [y]. *)
Lemma mul_0_l (y : Q) : Number.mul 0 y = 0%Q.
Proof. done. Qed.

(** On the computations of the proofs below, and on ties, [Number] gives
    what binary64 arithmetic gives. *)
Lemma round_agrees_with_binary64 :
  forallb Binary64.agrees Binary64.samples = true.
Proof. by vm_compute. Qed.

(** The literals of the sources, and the sum that is not [0.3]. *)
Lemma round_samples :
  Number.lit (3 # 10) = (5404319552844595 # 18014398509481984)%Q ∧
  Number.lit (1 # 25) = (5764607523034235 # 144115188075855872)%Q ∧
  (Number.round 723 == 723)%Q ∧
  (Number.round (Number.lit (1 # 10) + Number.lit (2 # 10))
     == 5404319552844596 # 18014398509481984)%Q.
Proof. by vm_compute. Qed.

(** ** The drag threshold *)

Section drag_threshold.

Import CustomVerticalDrawer.

Lemma gt_true (a b : Q) : gt a b = true ↔ (b < a)%Q.
Proof.
  unfold gt. rewrite negb_true_iff. split.
  - intros Hle. apply Qnot_le_lt. intros Hab.
    apply Qle_bool_iff in Hab. congruence.
  - intros Hlt. destruct (Qle_bool a b) eqn:Hle; [|done].
    apply Qle_bool_iff in Hle. exfalso. by eapply Qlt_not_le.
Qed.

Lemma gt_false (a b : Q) : gt a b = false ↔ (a <= b)%Q.
Proof. unfold gt. rewrite negb_false_iff. apply Qle_bool_iff. Qed.

(** The decision of [handleDragEnd], on the state it is called in. *)
Lemma handleDragEnd_decision (s : DragState) (event : option PointerEvent) :
  isDragging s = true →
  let threshold := Number.mul (initialHeight s) (Number.lit (3 # 10)) in
  let out := handleDragEnd event s in
  isDragging out.1 = false ∧
  ((threshold < dragOffset s)%Q → OnOpenChange false ∈ out.2) ∧
  ((dragOffset s <= threshold)%Q →
     dragOffset out.1 = 0%Q ∧ ∀ o, OnOpenChange o ∉ out.2).
Proof.
  intros Hdrag threshold out. split; [|split].
  - subst out. unfold handleDragEnd. by rewrite Hdrag.
  - intros Hlt. apply gt_true in Hlt. subst out threshold.
    unfold handleDragEnd. rewrite Hdrag. cbn [negb]. cbv zeta. rewrite Hlt.
    apply elem_of_cons. by left.
  - intros Hle. apply gt_false in Hle. subst out threshold.
    unfold handleDragEnd. rewrite Hdrag. cbn [negb]. cbv zeta. rewrite Hle.
    split; [done|].
    intros o Hin. destruct event as [e|]; [|destruct (lastEventRef s)];
      simpl in Hin; by repeat (apply elem_of_cons in Hin as [Hin|Hin]; [done|]);
        apply elem_of_nil in Hin.
Qed.

(** What [handleDragEnd] calls, on the state it is called in. *)
Lemma handleDragEnd_calls (s : DragState) (e : PointerEvent) :
  isDragging s = true →
  (handleDragEnd (Some e) s).2 =
  if gt (dragOffset s) (Number.mul (initialHeight s) (Number.lit (3 # 10)))
  then [OnOpenChange false; OnRelease e false]
  else [OnRelease e true].
Proof.
  intros Hdrag. unfold handleDragEnd. rewrite Hdrag. cbn [negb]. cbv zeta.
  by destruct (gt _ _).
Qed.

Lemma handleDragStart_tracking (height : Q) (press : PointerEvent) (s : DragState) :
  tracking (clientY press) height (handleDragStart false (Some height) press s).1.
Proof. done. Qed.

Lemma handleDragMove_tracking (startY height : Q) (e : PointerEvent) (s : DragState) :
  tracking startY height s →
  tracking startY height (handleDragMove e s).1 ∧
  dragOffset (handleDragMove e s).1 = max0 (Number.sub (clientY e) startY).
Proof.
  intros (Hdrag & Hstart & Hheight). unfold tracking, handleDragMove.
  by rewrite Hdrag, Hstart.
Qed.

Lemma moves_tracking (startY height : Q) (moves : list PointerEvent) (s : DragState) :
  tracking startY height s →
  tracking startY height (foldl (λ st e, (handleDragMove e st).1) s moves).
Proof.
  revert s. induction moves as [|e moves IH]; intros s Hs; [done|].
  simpl. apply IH. by apply handleDragMove_tracking.
Qed.

(** C3, as the code has it.  For a drag gesture started on the panel body,
    whose height is recorded at the press, the threshold is the product
    of that height and [0.3] as double-precision arithmetic gives it, and
    the delta is the clamped difference of the last move and the press,
    rounded likewise.  Release closes the panel when the delta is strictly
    more than the threshold; at exactly the threshold, and below, the
    drag is cancelled: the offset goes back to 0 and no close is
    requested. *)
Theorem body_drag_closes_strictly_above_threshold (s0 : DragState) (height : Q)
    (press last release : PointerEvent) (moves : list PointerEvent) :
  let delta := max0 (Number.sub (clientY last) (clientY press)) in
  let threshold := Number.mul height (Number.lit (3 # 10)) in
  let out := gesture (Some height) press (moves ++ [last]) release s0 in
  isDragging out.1 = false ∧
  ((threshold < delta)%Q →
     OnOpenChange false ∈ out.2 ∧ OnRelease release false ∈ out.2) ∧
  ((delta == threshold)%Q →
     dragOffset out.1 = 0%Q ∧ (∀ o, OnOpenChange o ∉ out.2) ∧
     OnRelease release true ∈ out.2) ∧
  ((delta < threshold)%Q →
     dragOffset out.1 = 0%Q ∧ (∀ o, OnOpenChange o ∉ out.2) ∧
     OnRelease release true ∈ out.2).
Proof.
  intros delta threshold out. subst out. unfold gesture.
  rewrite foldl_app. cbn [foldl].
  set (s1 := (handleDragStart false (Some height) press s0).1).
  set (s2 := foldl (λ st e, (handleDragMove e st).1) s1 moves).
  assert (Hs2 : tracking (clientY press) height s2).
  { apply moves_tracking, handleDragStart_tracking. }
  destruct (handleDragMove_tracking _ _ last _ Hs2) as [(Hdrag & _ & Hheight) Hoff].
  set (s3 := (handleDragMove last s2).1) in *.
  destruct (handleDragEnd_decision s3 (Some release) Hdrag) as (Hidle & Habove & Hbelow).
  pose proof (handleDragEnd_calls s3 release Hdrag) as Hcalls.
  rewrite Hheight, Hoff in Habove, Hbelow, Hcalls.
  fold delta threshold in Habove, Hbelow, Hcalls.
  assert (Hcancel : (delta <= threshold)%Q →
     dragOffset (handleDragEnd (Some release) s3).1 = 0%Q ∧
     (∀ o, OnOpenChange o ∉ (handleDragEnd (Some release) s3).2) ∧
     OnRelease release true ∈ (handleDragEnd (Some release) s3).2).
  { intros Hle. destruct (Hbelow Hle) as [Hzero Hnone]. split; [done|]. split; [done|].
    apply gt_false in Hle. rewrite Hcalls, Hle. apply elem_of_cons. by left. }
  split; [done|]. split; [|split].
  - intros Hlt. split; [by apply Habove|].
    apply gt_true in Hlt. rewrite Hcalls, Hlt.
    apply elem_of_cons. right. apply elem_of_cons. by left.
  - intros Heq. apply Hcancel. rewrite Heq. apply Qle_refl.
  - intros Hlt. apply Hcancel. by apply Qlt_le_weak.
Qed.

Lemma body_drag_closes_strictly_above_threshold_witness :
  OnOpenChange false ∈
    (gesture (Some 100%Q) (mkEvent 10) [mkEvent 25; mkEvent 41] (mkEvent 41) initial).2 ∧
  dragOffset
    (gesture (Some 100%Q) (mkEvent 10) [mkEvent 25; mkEvent 40] (mkEvent 40) initial).1
  = 0%Q ∧
  dragOffset
    (gesture (Some 100%Q) (mkEvent 10) [mkEvent 25; mkEvent 39] (mkEvent 39) initial).1
  = 0%Q.
Proof.
  split; [|split].
  - apply (proj1 (proj2
      (body_drag_closes_strictly_above_threshold initial 100 (mkEvent 10)
         (mkEvent 41) (mkEvent 41) [mkEvent 25]))).
    reflexivity.
  - apply (proj1 (proj2 (proj2
      (body_drag_closes_strictly_above_threshold initial 100 (mkEvent 10)
         (mkEvent 40) (mkEvent 40) [mkEvent 25])))).
    reflexivity.
  - apply (proj2 (proj2 (proj2
      (body_drag_closes_strictly_above_threshold initial 100 (mkEvent 10)
         (mkEvent 39) (mkEvent 39) [mkEvent 25])))).
    reflexivity.
Defined.

(** C3, as stated, fails: a panel 100 px high, pressed at 10 and released
    at 40, has a clamped delta of exactly 30% of its height, which is also
    the threshold the code computes, and no close is requested. *)
Lemma drag_release_at_threshold_cancels :
  let out :=
    gesture (Some 100%Q) (mkEvent 10) [mkEvent 25; mkEvent 40] (mkEvent 40) initial in
  (max0 (Number.sub 40 10) == 100 * (3 # 10))%Q ∧
  (max0 (Number.sub 40 10) == Number.mul 100 (Number.lit (3 # 10)))%Q ∧
  (OnOpenChange false ∉ out.2) ∧
  (OnOpenChange false ∉ (handleDragEnd (Some (mkEvent 40)) (dragged_by 30)).2).
Proof.
  split; [by vm_compute|]. split; [by vm_compute|].
  split; vm_compute; intros Hin;
    by repeat (apply elem_of_cons in Hin as [Hin|Hin]; [done|]);
      apply elem_of_nil in Hin.
Qed.

(** The threshold is a rounded product.  A panel 723 px high, pressed at
    [100.1] and released at 317: the distance travelled is more than 30%
    of the height, the delta and the threshold both round to the same
    number, and the drag is cancelled. *)
Lemma drag_release_rounded_to_threshold_cancels :
  let press := mkEvent (Number.lit (1001 # 10)) in
  let out := gesture (Some 723%Q) press [mkEvent 317] (mkEvent 317) initial in
  (723 * (3 # 10) < 317 - clientY press)%Q ∧
  (max0 (Number.sub 317 (clientY press)) == Number.mul 723 (Number.lit (3 # 10)))%Q ∧
  out.2 = [OnRelease (mkEvent 317) true] ∧
  dragOffset out.1 = 0%Q.
Proof. by vm_compute. Qed.

End drag_threshold.

(** ** Route resolution *)

Lemma split_head_idemp (c : ascii) (s : string) :
  split_head c (split_head c s) = split_head c s.
Proof.
  induction s as [|a s IH]; [done|]. simpl.
  destruct (Ascii.eqb a c) eqn:Hac; [done|]. simpl. by rewrite Hac, IH.
Qed.

Lemma split_head_suffix (c : ascii) (s q : string) :
  split_head c (split_head c s +:+ String c q) = split_head c s.
Proof.
  induction s as [|a s IH]; simpl.
  - by rewrite Ascii.eqb_refl.
  - destruct (Ascii.eqb a c) eqn:Hac; simpl.
    + by rewrite Ascii.eqb_refl.
    + by rewrite Hac, IH.
Qed.

Section resolution.

Context {View : Type}.
Variable matchPath : string → bool → string → option PathMatch.t.

Implicit Types (route : RouteObject.t View) (routes : list (RouteObject.t View)).

Lemma loop_step pathname route routes :
  findRouteAndMatch_loop matchPath pathname (route :: routes) =
  match entry_match matchPath pathname route with
  | Some m => Some (route, m)
  | None => findRouteAndMatch_loop matchPath pathname routes
  end.
Proof.
  simpl. unfold entry_match, truthy, js_or_empty.
  destruct (RouteObject.path route) as [pattern|]; simpl; [|done].
  by destruct (String.eqb pattern "").
Qed.

Lemma loop_none pathname routes :
  findRouteAndMatch_loop matchPath pathname routes = None ↔
  Forall (λ route, entry_match matchPath pathname route = None) routes.
Proof.
  induction routes as [|route routes IH].
  - split; [by constructor|done].
  - rewrite loop_step, Forall_cons.
    destruct (entry_match matchPath pathname route) as [m|]; [|by rewrite IH; intuition].
    split; [done|]. by intros [? _].
Qed.

Lemma loop_some pathname routes route m :
  findRouteAndMatch_loop matchPath pathname routes = Some (route, m) ↔
  ∃ before after,
    routes = (before ++ route :: after)%list ∧
    Forall (λ r, entry_match matchPath pathname r = None) before ∧
    entry_match matchPath pathname route = Some m.
Proof.
  induction routes as [|r routes IH].
  - split; [done|]. intros (before & after & Heq & _). by destruct before.
  - rewrite loop_step. destruct (entry_match matchPath pathname r) as [m'|] eqn:Hr.
    + split.
      * intros [= -> ->]. exists [], routes. split; [done|]. split; [by constructor|done].
      * intros (before & after & Heq & Hbefore & Hm).
        destruct before as [|r' before]; simpl in Heq; injection Heq as <- ->.
        -- congruence.
        -- apply Forall_cons in Hbefore as [Hr' _]. congruence.
    + rewrite IH. split.
      * intros (before & after & -> & Hbefore & Hm).
        exists (r :: before), after. split; [done|]. split; [by constructor|done].
      * intros (before & after & Heq & Hbefore & Hm).
        destruct before as [|r' before]; simpl in Heq; injection Heq as <- ->.
        -- congruence.
        -- apply Forall_cons in Hbefore as [_ Hbefore]. by exists before, after.
Qed.

End resolution.

(** C6. Resolution drops the query string of the path before matching,
    asks the matcher for a match to the end of the path, returns the first
    entry of the flattened list that matches, and returns nothing when no
    entry matches; the flattened list is in tree pre-order.  With the
    reference matcher, [/profile] matches [/profile] and [/profile?x=1]
    alike and does not match [/profile/edit], which resolves to the deeper
    pattern when there is one. *)
Theorem findRouteAndMatch_first_exact_match :
  (∀ (View : Type) matchPath (path : string) (routes : list (RouteObject.t View)),
     findRouteAndMatch matchPath path routes
       = findRouteAndMatch matchPath (split_head "?" path) routes ∧
     (∀ query : string,
        findRouteAndMatch matchPath (split_head "?" path +:+ "?" +:+ query) routes
        = findRouteAndMatch matchPath path routes) ∧
     (∀ route m,
        findRouteAndMatch matchPath path routes = Some (route, m) ↔
        ∃ before after,
          routes = (before ++ route :: after)%list ∧
          Forall (λ r, entry_match matchPath (split_head "?" path) r = None) before ∧
          entry_match matchPath (split_head "?" path) route = Some m) ∧
     (findRouteAndMatch matchPath path routes = None ↔
      Forall (λ r, entry_match matchPath (split_head "?" path) r = None) routes)) ∧
  (∀ (View : Type) (route : RouteObject.t View) (rest : list (RouteObject.t View))
     (parentPath : string),
     flattenRoutes (route :: rest) parentPath =
     (RouteObject.mk (Some (fullPath_of parentPath route))
        (RouteObject.element route) (RouteObject.children route)
      :: flattenRoutes (RouteObject.children route) (fullPath_of parentPath route)
      ++ flattenRoutes rest parentPath)%list) ∧
  (∀ (View : Type) (element : option View) (children : list (RouteObject.t View)),
     let profile := RouteObject.mk (Some "/profile") element children in
     findRouteAndMatch matchPath_model "/profile" [profile]
       = Some (profile, PathMatch.mk [] "/profile" "/profile") ∧
     findRouteAndMatch matchPath_model "/profile?x=1" [profile]
       = findRouteAndMatch matchPath_model "/profile" [profile] ∧
     findRouteAndMatch matchPath_model "/profile/edit" [profile] = None) ∧
  (RouteObject.element ∘ fst
     <$> findRouteAndMatch matchPath_model "/profile/edit" (flattenRoutes profileRoutes "")
   = Some (Some 3) ∧
   RouteObject.element ∘ fst
     <$> findRouteAndMatch matchPath_model "/profile?x=1" (flattenRoutes profileRoutes "")
   = Some (Some 2) ∧
   findRouteAndMatch matchPath_model "/settings" (flattenRoutes profileRoutes "") = None).
Proof.
  split; [|split; [|split]].
  - intros View matchPath path routes. unfold findRouteAndMatch.
    split; [by rewrite split_head_idemp|].
    split.
    { intros query. change ("?" +:+ query) with (String "?" query).
      by rewrite split_head_suffix. }
    split; [intros route m; apply loop_some|apply loop_none].
  - intros View [pattern element children] rest parentPath. reflexivity.
  - intros View element children profile. by vm_compute.
  - by vm_compute.
Qed.

(** C5, as the code has it.  The path [/] is rejected whatever the route
    tree and the matcher, also when a pattern matches it; no other path
    is, and the empty path goes through ordinary resolution, where the
    reference matcher finds nothing for it. *)
Theorem only_slash_is_rejected :
  (∀ (View : Type) matchPath (routes : list (RouteObject.t View)),
     DrawerContent matchPath "/" routes = RootRejected ∧
     DrawerContent matchPath "" routes ≠ RootRejected ∧
     ∀ path : string,
       DrawerContent matchPath path routes = RootRejected ↔ path = "/") ∧
  (∀ (View : Type) (routes : list (RouteObject.t View)),
     DrawerContent matchPath_model "" routes = NotFound "") ∧
  is_Some (findRouteAndMatch matchPath_model "/" (flattenRoutes routeConfig "")).
Proof.
  assert (Hiff : ∀ (View : Type) matchPath (routes : list (RouteObject.t View))
                   (path : string),
             DrawerContent matchPath path routes = RootRejected ↔ path = "/").
  { intros View matchPath routes path. unfold DrawerContent.
    destruct (String.eqb path "/") eqn:Hroot.
    - apply String.eqb_eq in Hroot. by split.
    - apply String.eqb_neq in Hroot.
      split; [|done].
      destruct (findRouteAndMatch _ _ _) as [[route m]|]; [|done].
      by destruct (RouteObject.element route). }
  split; [|split].
  - intros View matchPath routes. split; [done|]. split; [|apply Hiff].
    intros Hroot. by apply Hiff in Hroot.
  - intros View routes. unfold DrawerContent, findRouteAndMatch. simpl.
    replace (findRouteAndMatch_loop matchPath_model "" (flattenRoutes routes ""))
      with (@None (RouteObject.t View * PathMatch.t)); [done|].
    symmetry. apply loop_none. apply Forall_forall. intros route _.
    unfold entry_match. destruct (RouteObject.path route) as [pattern|]; [|done].
    by destruct (String.eqb pattern "").
  - eexists. by vm_compute.
Qed.

(** C5, as stated, fails for the empty path: over the route tree of the
    README, whose root pattern matches [/], the empty path renders the
    not-found placeholder, not the root placeholder. *)
Lemma empty_path_is_not_rejected :
  DrawerContent matchPath_model "/" routeConfig = RootRejected ∧
  DrawerContent matchPath_model "" routeConfig = NotFound "" ∧
  DrawerContent matchPath_model "" routeConfig ≠ RootRejected.
Proof. split; [|split]; by vm_compute. Qed.

(* ===================================================================== *)
(** * Further properties of the sources                                  *)
(* ===================================================================== *)

(** ** The stack store *)

Lemma mapi_from_app {A B} (f : A → nat → B) i xs ys :
  mapi_from f i (xs ++ ys) = (mapi_from f i xs ++ mapi_from f (i + length xs) ys)%list.
Proof.
  revert i. induction xs as [|x xs IH]; intros i; simpl.
  - by rewrite Nat.add_0_r.
  - rewrite IH. by replace (S i + length xs) with (i + S (length xs)) by lia.
Qed.

Lemma mapi_from_take {A B} (f : A → nat → B) i n xs :
  mapi_from f i (take n xs) = take n (mapi_from f i xs).
Proof.
  revert i n. induction xs as [|x xs IH]; intros i [|n]; simpl; try done.
  by rewrite IH.
Qed.

(** X1. [replaceDrawerStack(paths)] leaves exactly [paths] as the persisted
    list, in order, whatever list the render or the live URL had; with no
    paths it navigates where [closeAllDrawers] does. *)
Theorem replaceDrawerStack_sets_the_list (stale : Location) (paths : list string)
    (b : Browser) :
  persisted (replaceDrawerStack stale paths b) = paths ∧
  path <$> drawerStack (render (replaceDrawerStack stale paths b)) = paths ∧
  replaceDrawerStack stale [] b = closeAllDrawers stale b.
Proof.
  split; [apply persisted_replaceDrawerStack|]. split; [|done].
  pose proof (persisted_replaceDrawerStack stale paths b) as Hp.
  unfold persisted in Hp. unfold drawerStack, searchParams, render.
  by rewrite Hp, mapi_from_fmap, mapi_from_const.
Qed.

(** X2. [hasDrawers] tells whether the persisted list is non-empty, and
    [currentDrawer] is the entry of its last path, at level [n - 1], or
    [null] when there is none. *)
Theorem currentDrawer_is_last_entry (location : Location) :
  let p := URLSearchParams.getAll "drawer" (search location) in
  hasDrawers location = bool_decide (p ≠ []) ∧
  currentDrawer location =
    (λ x, {| id := "drawer-" +:+ pretty (length p - 1); path := x;
             level := Z.of_nat (length p - 1) |}) <$> last p ∧
  (hasDrawers location = false ↔ currentDrawer location = None).
Proof.
  intros p.
  assert (Hhas : hasDrawers location = bool_decide (p ≠ [])).
  { unfold hasDrawers. apply bool_decide_ext. rewrite drawerStack_length. fold p.
    generalize p. intros [|x q]; simpl; [split; [lia|done]|split; [done|lia]]. }
  assert (Hcur : currentDrawer location =
    (λ x, {| id := "drawer-" +:+ pretty (length p - 1); path := x;
             level := Z.of_nat (length p - 1) |}) <$> last p).
  { unfold currentDrawer. rewrite !last_lookup, drawerStack_lookup, drawerStack_length.
    fold p. by replace (Nat.pred (length p)) with (length p - 1) by lia. }
  split; [done|]. split; [done|].
  rewrite Hhas, Hcur. generalize p. intros q.
  destruct q as [|x q'] using rev_ind.
  - done.
  - rewrite last_snoc. simpl. split; [|done].
    intros Hfalse. apply bool_decide_eq_false in Hfalse.
    destruct Hfalse. by destruct q'.
Qed.

(** X3. [popDrawer] works on the list its render read, not on the live
    URL: the location it navigates to is the same from any browser state,
    so two calls from one render remove one level, and a [pushDrawer]
    made from the same render just before is overwritten. *)
Theorem popDrawer_uses_the_render (location : Location) (b : Browser) :
  URLSearchParams.getAll "drawer" (search location) ≠ [] →
  (∀ b' : Browser,
     window_location (popDrawer location b') = window_location (popDrawer location b)) ∧
  persisted (popDrawer location (popDrawer location b))
    = slice_0_m1 (URLSearchParams.getAll "drawer" (search location)) ∧
  (∀ p : string,
     persisted (popDrawer location (pushDrawer location p b))
     = slice_0_m1 (URLSearchParams.getAll "drawer" (search location))).
Proof.
  intros Hne.
  assert (Hpop : ∀ b' : Browser,
    window_location (popDrawer location b') =
    {| pathname := pathname location;
       search := URLSearchParams.appendEach "drawer"
                   (slice_0_m1 (URLSearchParams.getAll "drawer" (search location)))
                   (URLSearchParams.delete "drawer" (search location)) |}).
  { intros b'. unfold popDrawer, searchParams.
    rewrite bool_decide_eq_false_2; [done|].
    by destruct (URLSearchParams.getAll "drawer" (search location)). }
  split; [intros b'; by rewrite !Hpop|].
  unfold persisted. split; [|intros p]; rewrite Hpop; simpl; apply getAll_rebuilt.
Qed.

Lemma popDrawer_uses_the_render_witness :
  persisted (popDrawer (render three_drawers) (popDrawer (render three_drawers) three_drawers))
  = ["/a"; "/b"] ∧
  persisted (popDrawer (render three_drawers)
               (pushDrawer (render three_drawers) "/d" three_drawers))
  = ["/a"; "/b"].
Proof.
  assert (Hne : URLSearchParams.getAll "drawer" (search (render three_drawers)) ≠ [])
    by discriminate.
  split.
  - apply (proj1 (proj2 (popDrawer_uses_the_render (render three_drawers)
                           three_drawers Hne))).
  - apply (proj2 (proj2 (popDrawer_uses_the_render (render three_drawers)
                           three_drawers Hne)) "/d").
Defined.

(** X4. With a render between the calls, [push(p)] followed by [pop()]
    gives back the persisted list, [replaceTop(p)] gives the list that
    [pop()] followed by [push(p)] gives, and [replaceAll] of the current
    list changes nothing in it. *)
Theorem mutators_compose (b : Browser) (p : string) :
  persisted (mutations b [Push p; Pop]) = persisted b ∧
  persisted (mutate b (ReplaceTop p)) = persisted (mutations b [Pop; Push p]) ∧
  persisted (mutate b (ReplaceAll (persisted b))) = persisted b.
Proof.
  split; [|split].
  - unfold mutations. cbn [foldl]. unfold mutate.
    by rewrite persisted_popDrawer, persisted_pushDrawer, slice_0_m1_snoc.
  - unfold mutations. cbn [foldl]. unfold mutate.
    by rewrite persisted_replaceDrawer, persisted_pushDrawer, persisted_popDrawer.
  - unfold mutate. apply persisted_replaceDrawerStack.
Qed.

(** X5. Every mutator navigates with [replace: false]: it leaves the
    location it was at as the newest history entry, so going back lands on
    the previous stack; the one exception is [pop()] on an empty stack,
    which does not navigate. *)
Theorem mutators_push_one_history_entry (b : Browser) (m : Mutation) :
  history (mutate b m) =
  match m, persisted b with
  | Pop, [] => history b
  | _, _ => window_location b :: history b
  end.
Proof.
  destruct m as [p| | |p|ps]; simpl; try done.
  unfold popDrawer, searchParams, render, persisted.
  by destruct (URLSearchParams.getAll "drawer" (search (window_location b))).
Qed.

(** X6. The mutators that rewrite the list put the [drawer] parameters
    behind all the others: the new query string is the other parameters,
    in their order, followed by one [drawer] pair per level; [push] leaves
    the query string as it is and adds one pair at the end. *)
Theorem mutators_shape_the_query (b : Browser) (m : Mutation) :
  let before := search (window_location b) in
  let others := filter (λ kv, kv.1 ≠ "drawer") before in
  search (window_location (mutate b m)) =
  match m with
  | Push p => (before ++ [("drawer", p)])%list
  | Pop =>
      match persisted b with
      | [] => before
      | _ => (others ++ (pair "drawer" <$> persisted (mutate b m)))%list
      end
  | _ => (others ++ (pair "drawer" <$> persisted (mutate b m)))%list
  end.
Proof.
  intros before others. subst before others.
  destruct m as [p| | |p|ps].
  - done.
  - unfold mutate. rewrite persisted_popDrawer.
    unfold popDrawer, persisted, render, searchParams.
    destruct (URLSearchParams.getAll "drawer" (search (window_location b))) eqn:Hp;
      [done|].
    simpl. by rewrite appendEach_pairs.
  - unfold mutate. rewrite persisted_closeAllDrawers. simpl.
    by rewrite app_nil_r.
  - unfold mutate. rewrite persisted_replaceDrawer.
    unfold replaceDrawer, persisted, render, searchParams, URLSearchParams.append.
    simpl.
    destruct (URLSearchParams.getAll "drawer" (search (window_location b))) eqn:Hp;
      [done|].
    rewrite bool_decide_eq_false_2 by done.
    by rewrite appendEach_pairs, fmap_app, <- app_assoc.
  - unfold mutate. rewrite persisted_replaceDrawerStack. simpl.
    by rewrite appendEach_pairs.
Qed.

Lemma drawer_id_inj : Inj (=) (=) drawer_id.
Proof.
  intros i j Hij. unfold drawer_id in Hij. simpl in Hij.
  injection Hij as Hij. by apply (inj pretty).
Qed.

(** X7. The ids of a derived stack are pairwise distinct, for any
    persisted list, duplicated paths included. *)
Theorem drawerStack_ids_distinct (location : Location) :
  NoDup (id <$> drawerStack location).
Proof.
  unfold drawerStack. rewrite mapi_from_fmap. simpl.
  rewrite (mapi_from_index drawer_id).
  apply (NoDup_fmap_2 drawer_id), NoDup_seq.
Qed.

(** X8. [push] and [pop] leave the entries beneath the top as they are:
    after [push(p)] the stack is the old one with the entry of [p] on top,
    at level [n]; after [pop()] it is the old one without its last entry;
    after [closeAll()] it is empty. *)
Theorem push_and_pop_keep_lower_entries (b : Browser) (p : string) :
  let n := length (persisted b) in
  (∀ stale : Location,
     drawerStack (render (pushDrawer stale p b)) =
     (drawerStack (render b) ++
      [{| id := "drawer-" +:+ pretty n; path := p; level := Z.of_nat n |}])%list) ∧
  drawerStack (render (mutate b Pop)) = slice_0_m1 (drawerStack (render b)) ∧
  drawerStack (render (mutate b CloseAll)) = [].
Proof.
  intros n. split; [|split].
  - intros stale. pose proof (persisted_pushDrawer stale p b) as Hp.
    unfold persisted in Hp. unfold drawerStack at 1, searchParams, render.
    by rewrite Hp, mapi_from_app.
  - pose proof (persisted_popDrawer b) as Hp. unfold persisted in Hp.
    unfold mutate, drawerStack at 1, searchParams. unfold render at 1.
    rewrite Hp. unfold slice_0_m1. rewrite mapi_from_take.
    by rewrite drawerStack_length.
  - pose proof (persisted_closeAllDrawers (render b) b) as Hp.
    unfold persisted in Hp. unfold mutate, drawerStack, searchParams, render in *.
    by rewrite Hp.
Qed.

(** ** Route flattening and the content of a drawer *)

Lemma route_induction {View : Type} (P : RouteObject.t View → Prop) :
  (∀ p e c, Forall P c → P (RouteObject.mk p e c)) → ∀ route, P route.
Proof.
  intros Hmk. fix IH 1. intros [p e c]. apply Hmk.
  induction c as [|r c IHc]; constructor; [apply IH|apply IHc].
Qed.

Lemma fmap_flat_map {A B C} (f : B → C) (g : A → list B) (xs : list A) :
  f <$> flat_map g xs = flat_map (λ x, f <$> g x) xs.
Proof.
  induction xs as [|x xs IH]; simpl; [done|]. by rewrite fmap_app, IH.
Qed.

Lemma flat_map_Forall_ext {A B} (g h : A → list B) (xs : list A) :
  Forall (λ x, g x = h x) xs → flat_map g xs = flat_map h xs.
Proof. induction 1 as [|x xs Hx _ IH]; simpl; [done|]. by rewrite Hx, IH. Qed.

Lemma flattenRoute_unfold {View : Type} (parentPath : string)
    (route : RouteObject.t View) :
  flattenRoute parentPath route =
  RouteObject.mk (Some (fullPath_of parentPath route))
    (RouteObject.element route) (RouteObject.children route)
  :: flat_map (flattenRoute (fullPath_of parentPath route)) (RouteObject.children route).
Proof. by destruct route. Qed.

Lemma flattenRoute_shape {View : Type} (route : RouteObject.t View) :
  ∀ parentPath : string,
    (λ r, (RouteObject.element r, RouteObject.children r)) <$> flattenRoute parentPath route
    = (λ r, (RouteObject.element r, RouteObject.children r)) <$> nodes route.
Proof.
  induction route as [p e c IH] using route_induction. intros parentPath.
  rewrite flattenRoute_unfold. simpl. f_equal.
  rewrite !fmap_flat_map. apply flat_map_Forall_ext.
  eapply Forall_impl; [exact IH|]. intros r Hr. apply Hr.
Qed.

Lemma flattenRoute_paths {View : Type} (route : RouteObject.t View) :
  ∀ parentPath : string,
    Forall (λ r, is_Some (RouteObject.path r)) (flattenRoute parentPath route).
Proof.
  induction route as [p e c IH] using route_induction. intros parentPath.
  rewrite flattenRoute_unfold. constructor; [by eexists|].
  simpl. generalize (fullPath_of parentPath (RouteObject.mk p e c)). intros full.
  induction IH as [|r c Hr _ IHc]; simpl; [constructor|].
  apply Forall_app. split; [apply Hr|apply IHc].
Qed.

(** X9. [flattenRoutes] yields one entry per node of the route tree, in
    pre-order (a route before its children, siblings in declared order);
    every entry keeps the element and the children of its node and has a
    path, whether or not the node declared one. *)
Theorem flattenRoutes_keeps_every_node {View : Type}
    (routes : list (RouteObject.t View)) (parentPath : string) :
  (λ r, (RouteObject.element r, RouteObject.children r)) <$> flattenRoutes routes parentPath
    = (λ r, (RouteObject.element r, RouteObject.children r)) <$> flat_map nodes routes ∧
  length (flattenRoutes routes parentPath) = length (flat_map nodes routes) ∧
  Forall (λ r, is_Some (RouteObject.path r)) (flattenRoutes routes parentPath).
Proof.
  assert (Hshape :
    (λ r, (RouteObject.element r, RouteObject.children r)) <$> flattenRoutes routes parentPath
    = (λ r : RouteObject.t View, (RouteObject.element r, RouteObject.children r))
        <$> flat_map nodes routes).
  { unfold flattenRoutes. rewrite !fmap_flat_map. apply flat_map_Forall_ext.
    apply Forall_forall. intros r _. apply flattenRoute_shape. }
  split; [done|]. split.
  - by rewrite <- (length_fmap (λ r, (RouteObject.element r, RouteObject.children r))),
      Hshape, length_fmap.
  - clear Hshape. unfold flattenRoutes.
    induction routes as [|r routes IH]; simpl; [constructor|].
    apply Forall_app. split; [apply flattenRoute_paths|apply IH].
Qed.

Lemma collapse_slashes_head (a : ascii) (s : string) :
  ∃ s', collapse_slashes (String a s) = String a s'.
Proof.
  revert a. induction s as [|b s IH]; intros a.
  - simpl. destruct (Ascii.eqb a "/"); by eexists.
  - destruct (IH b) as [s' Hs'].
    change (collapse_slashes (String a (String b s))) with
      (if Ascii.eqb a "/" then
         if Ascii.eqb b "/" then collapse_slashes (String b s)
         else String a (collapse_slashes (String b s))
       else String a (collapse_slashes (String b s))).
    destruct (Ascii.eqb a "/") eqn:Ha; [|by eexists].
    destruct (Ascii.eqb b "/") eqn:Hb; [|by eexists].
    apply Ascii.eqb_eq in Ha, Hb. subst. by eexists.
Qed.

Lemma collapse_slashes_single (s : string) :
  no_double_slash (collapse_slashes s) = true.
Proof.
  induction s as [|a s IH]; [done|].
  destruct s as [|b s]; [simpl; by destruct (Ascii.eqb a "/")|].
  change (collapse_slashes (String a (String b s))) with
    (if Ascii.eqb a "/" then
       if Ascii.eqb b "/" then collapse_slashes (String b s)
       else String a (collapse_slashes (String b s))
     else String a (collapse_slashes (String b s))).
  destruct (collapse_slashes_head b s) as [s' Hs'].
  destruct (Ascii.eqb a "/") eqn:Ha; [destruct (Ascii.eqb b "/") eqn:Hb|].
  - exact IH.
  - rewrite Hs' in *.
    change (no_double_slash (String a (String b s'))) with
      (negb (Ascii.eqb a "/" && Ascii.eqb b "/") && no_double_slash (String b s')).
    by rewrite IH, Hb, andb_false_r.
  - rewrite Hs' in *.
    change (no_double_slash (String a (String b s'))) with
      (negb (Ascii.eqb a "/" && Ascii.eqb b "/") && no_double_slash (String b s')).
    by rewrite IH, Ha.
Qed.

(** X10. Under a parent other than [/], the full path of a route that
    declares a path has no two adjacent slashes, however the two parts
    were written; under the parent [/] the path is prefixed with one slash
    and not collapsed, so a child path that starts with a slash gets two. *)
Theorem fullPath_of_slashes {View : Type} (parentPath pattern : string)
    (element : option View) (children : list (RouteObject.t View)) :
  pattern ≠ "" →
  (parentPath ≠ "/" →
     no_double_slash
       (fullPath_of parentPath (RouteObject.mk (Some pattern) element children))
     = true) ∧
  (pattern ≠ "/" →
     fullPath_of "/" (RouteObject.mk (Some pattern) element children)
     = "/" +:+ pattern).
Proof.
  intros Hpattern. apply String.eqb_neq in Hpattern.
  unfold fullPath_of, truthy, js_or_empty. simpl. rewrite Hpattern. simpl. split.
  - intros Hparent. apply String.eqb_neq in Hparent. rewrite Hparent.
    apply collapse_slashes_single.
  - intros Hslash. apply String.eqb_neq in Hslash. by rewrite Hslash.
Qed.

Lemma fullPath_of_slashes_witness :
  no_double_slash (fullPath_of "/a//" (RouteObject.mk (Some "//b/") (Some 1) [])) = true ∧
  fullPath_of "/" (RouteObject.mk (Some "/profile") (Some 2) []) = "//profile".
Proof.
  split.
  - apply (proj1 (fullPath_of_slashes "/a//" "//b/" (Some 1) [] ltac:(discriminate))).
    discriminate.
  - apply (proj2 (fullPath_of_slashes "/" "/profile" (Some 2) [] ltac:(discriminate))).
    discriminate.
Defined.

Lemma collapse_slashes_nonempty (s : string) : collapse_slashes (String "/" s) ≠ "".
Proof. destruct (collapse_slashes_head "/" s) as [s' ->]. discriminate. Qed.

(** X11. A route without an element hides what comes after it: when the
    pattern of such a route matches the path of a drawer, the drawer shows
    the not-found placeholder, whatever its children (an index child with
    an element included) and the routes after it would render. *)
Theorem route_without_element_shadows {View : Type}
    (matchPath : string → bool → string → option PathMatch.t)
    (pattern path : string) (children rest : list (RouteObject.t View))
    (m : PathMatch.t) :
  pattern ≠ "" → path ≠ "/" →
  matchPath (fullPath_of "" (RouteObject.mk (Some pattern) None children)) true
    (split_head "?" path) = Some m →
  DrawerContent matchPath path (RouteObject.mk (Some pattern) None children :: rest)
  = NotFound path.
Proof.
  intros Hpattern Hpath Hm. unfold DrawerContent.
  apply String.eqb_neq in Hpath. rewrite Hpath.
  assert (Hfull : fullPath_of "" (RouteObject.mk (Some pattern) None children) ≠ "").
  { unfold fullPath_of, truthy, js_or_empty. simpl.
    apply String.eqb_neq in Hpattern. rewrite Hpattern. simpl.
    apply collapse_slashes_nonempty. }
  apply String.eqb_neq in Hfull.
  unfold findRouteAndMatch, flattenRoutes.
  change (flat_map (flattenRoute "")
            (RouteObject.mk (Some pattern) None children :: rest))
    with (flattenRoute "" (RouteObject.mk (Some pattern) None children)
          ++ flat_map (flattenRoute "") rest)%list.
  rewrite flattenRoute_unfold.
  set (full := fullPath_of "" (RouteObject.mk (Some pattern) None children)) in *.
  rewrite <- app_comm_cons, loop_step. unfold entry_match.
  change (RouteObject.path (RouteObject.mk (Some full) _ _)) with (Some full).
  cbv beta iota. by rewrite Hfull, Hm.
Qed.

Lemma route_without_element_shadows_witness :
  DrawerContent matchPath_model "/users"
    [RouteObject.mk (Some "users") None [RouteObject.mk (Some "") (Some 7) []]]
  = NotFound "/users".
Proof.
  apply (route_without_element_shadows matchPath_model "users" "/users"
           [RouteObject.mk (Some "") (Some 7) []] []
           (PathMatch.mk [] "/users" "/users"));
    [discriminate|discriminate|reflexivity].
Defined.

Lemma free_of_split_head (c : ascii) (s : string) : free_of c (split_head c s) = true.
Proof.
  induction s as [|a s IH]; [done|]. simpl.
  destruct (Ascii.eqb a c) eqn:Hac; [done|]. simpl. by rewrite Hac.
Qed.

Lemma split_rest_free (c : ascii) (s : string) :
  free_of c s = true → split_rest c s = None.
Proof.
  induction s as [|a s IH]; [done|]. simpl.
  destruct (Ascii.eqb a c); [done|]. exact IH.
Qed.

(** X12. When a drawer renders a view, the view is the element of an entry
    of the flattened tree whose pattern the matcher accepted, to the end,
    for the path without its query string; the search string handed to
    the view is the text between the first and the second question mark
    of the path, hence empty for a path without one and never with a
    question mark of its own. *)
Theorem DrawerContent_resolved_sound {View : Type}
    (matchPath : string → bool → string → option PathMatch.t)
    (path : string) (routes : list (RouteObject.t View))
    (el : View) (route : RouteObject.t View) (m : PathMatch.t) (drawerSearch : string) :
  DrawerContent matchPath path routes = Resolved el route m drawerSearch →
  path ≠ "/" ∧
  route ∈ flattenRoutes routes "" ∧
  RouteObject.element route = Some el ∧
  entry_match matchPath (split_head "?" path) route = Some m ∧
  drawerSearch = default "" (split_second "?" path) ∧
  free_of "?" drawerSearch = true ∧
  (free_of "?" path = true → drawerSearch = "").
Proof.
  unfold DrawerContent. destruct (String.eqb path "/") eqn:Hroot; [done|].
  apply String.eqb_neq in Hroot.
  destruct (findRouteAndMatch matchPath path (flattenRoutes routes ""))
    as [[route' m']|] eqn:Hfind; [|done].
  destruct (RouteObject.element route') as [el'|] eqn:Hel; [|done].
  intros [= -> -> -> <-].
  apply loop_some in Hfind as (before & after & Hsplit & _ & Hm).
  split; [done|]. split; [rewrite Hsplit; set_solver|].
  split; [done|]. split; [done|]. split; [done|]. split.
  - unfold split_second. destruct (split_rest "?" path) as [rest|]; [|done].
    simpl. apply free_of_split_head.
  - intros Hfree. unfold split_second. by rewrite split_rest_free.
Qed.

Lemma DrawerContent_resolved_sound_witness :
  RouteObject.element
    (RouteObject.mk (Some "/profile") (Some 2) ([] : list (RouteObject.t nat)))
  = Some 2 ∧
  "x=1" = default "" (split_second "?" "/profile?x=1?y=2").
Proof.
  pose proof (DrawerContent_resolved_sound matchPath_model "/profile?x=1?y=2"
                routeConfig 2 (RouteObject.mk (Some "/profile") (Some 2) [])
                (PathMatch.mk [] "/profile" "/profile") "x=1" eq_refl)
    as (_ & _ & Hel & _ & Hsearch & _).
  exact (conj Hel Hsearch).
Defined.

(** ** Depth and transforms *)

Lemma effective_ids (keep : nat → bool) (f : string → nat → DrawerStackItem) :
  (∀ p j, id (f p j) = drawer_id j) →
  ∀ (ps : list string) (k : nat),
    id <$> filter_index_from keep k (mapi_from f k ps)
    = drawer_id <$> filter (λ j, keep j = true) (seq k (length ps)).
Proof.
  intros Hid ps. induction ps as [|p ps IH]; intros k; [done|].
  simpl. rewrite filter_cons. destruct (keep k) eqn:Hk.
  - rewrite decide_True by done. simpl. by rewrite Hid, IH.
  - rewrite decide_False by done. apply IH.
Qed.

Lemma findIndex_from_fmap {A B} (g : A → B) (p : B → bool) (z : Z) (xs : list A) :
  findIndex_from (λ x, p (g x)) z xs = findIndex_from p z (g <$> xs).
Proof.
  revert z. induction xs as [|x xs IH]; intros z; [done|].
  simpl. by rewrite IH.
Qed.

Lemma findIndex_from_ext {A} (p q : A → bool) (z : Z) (xs : list A) :
  (∀ x, p x = q x) → findIndex_from p z xs = findIndex_from q z xs.
Proof.
  intros Hpq. revert z. induction xs as [|x xs IH]; intros z; [done|].
  simpl. by rewrite Hpq, IH.
Qed.

Lemma drawer_id_eqb (i j : nat) : String.eqb (drawer_id j) (drawer_id i) = Nat.eqb j i.
Proof.
  destruct (Nat.eqb j i) eqn:Hji.
  - apply Nat.eqb_eq in Hji. subst. apply String.eqb_refl.
  - apply String.eqb_neq. intros Heq. apply drawer_id_inj in Heq.
    apply Nat.eqb_neq in Hji. done.
Qed.

Lemma findIndex_in_kept (keep : nat → bool) (i : nat) :
  ∀ (n k : nat) (z : Z),
    findIndex_from (λ j, Nat.eqb j i) z (filter (λ j, keep j = true) (seq k n)) =
    if bool_decide (k ≤ i)%nat && bool_decide (i < k + n)%nat && keep i
    then (z + Z.of_nat (length (filter (λ j, keep j = true) (seq k (i - k)))))%Z
    else (-1)%Z.
Proof.
  induction n as [|n IH]; intros k z.
  - simpl. destruct (bool_decide (k ≤ i)%nat) eqn:Hle; [|done].
    apply bool_decide_eq_true in Hle. by rewrite bool_decide_eq_false_2 by lia.
  - simpl seq. rewrite filter_cons.
    destruct (lt_eq_lt_dec k i) as [[Hlt|Heq]|Hgt].
    + assert (Hseq : seq k (i - k) = k :: seq (S k) (i - S k)).
      { replace (i - k) with (S (i - S k)) by lia. done. }
      rewrite Hseq, filter_cons.
      rewrite (bool_decide_eq_true_2 (k ≤ i)%nat) by lia.
      replace (bool_decide (i < k + S n)%nat) with (bool_decide (i < S k + n)%nat)
        by (apply bool_decide_ext; lia).
      specialize (IH (S k)). rewrite (bool_decide_eq_true_2 (S k ≤ i)%nat) in IH by lia.
      destruct (keep k) eqn:Hkeep.
      * rewrite !decide_True by done. simpl findIndex_from.
        replace (Nat.eqb k i) with false by (symmetry; apply Nat.eqb_neq; lia).
        rewrite IH. simpl.
        destruct (bool_decide (i < S (k + n))%nat && keep i); [|done].
        rewrite Nat2Z.inj_succ. lia.
      * rewrite !decide_False by done. by rewrite IH.
    + subst k. replace (i - i) with 0 by lia.
      rewrite (bool_decide_eq_true_2 (i ≤ i)%nat) by lia.
      rewrite (bool_decide_eq_true_2 (i < i + S n)%nat) by lia. simpl.
      destruct (keep i) eqn:Hi.
      * rewrite decide_True by done. simpl. rewrite Nat.eqb_refl.
        by rewrite Z.add_0_r.
      * rewrite decide_False by done. rewrite IH.
        by rewrite (bool_decide_eq_false_2 (S i ≤ i)%nat) by lia.
    + rewrite (bool_decide_eq_false_2 (k ≤ i)%nat) by lia. simpl.
      specialize (IH (S k)).
      rewrite (bool_decide_eq_false_2 (S k ≤ i)%nat) in IH by lia. simpl in IH.
      destruct (keep k) eqn:Hkeep.
      * rewrite decide_True by done. simpl.
        replace (Nat.eqb k i) with false by (symmetry; apply Nat.eqb_neq; lia).
        apply IH.
      * rewrite decide_False by done. apply IH.
Qed.

Lemma kept_split (keep : nat → bool) (i n : nat) :
  i < n → keep i = true →
  length (filter (λ j, keep j = true) (seq 0 n)) =
  length (filter (λ j, keep j = true) (seq 0 i)) + 1 +
  length (filter (λ j, keep j = true) (seq (S i) (n - S i))).
Proof.
  intros Hi Hkeep.
  replace n with (i + S (n - S i)) at 1 by lia.
  rewrite seq_app, filter_app, length_app. simpl seq.
  rewrite filter_cons, decide_True by done. simpl. lia.
Qed.

(** The depth computed by the render, as a count over the levels. *)
Lemma depthAt_count (location : Location) (t : Transient)
    (i : nat) :
  let n := length (drawerStack location) in
  let open_in := λ l : list nat, length (filter (λ j, j ∉ closingDrawers t) l) in
  i < n →
  depthAt location t i =
  Some (Z.of_nat (if bool_decide (i ∈ closingDrawers t)
                  then open_in (seq 0 n)
                  else open_in (seq (S i) (n - S i)))).
Proof.
  intros n open_in Hi. subst open_in. cbv beta.
  set (keep := λ j : nat, negb (bool_decide (j ∈ closingDrawers t))).
  assert (Hkeep : ∀ l : list nat,
            filter (λ j, j ∉ closingDrawers t) l = filter (λ j, keep j = true) l).
  { intros l. apply list_filter_iff. intros j. unfold keep.
    rewrite negb_true_iff, bool_decide_eq_false. done. }
  rewrite !Hkeep.
  unfold depthAt. rewrite drawerStack_lookup.
  assert (Hn : n = length (URLSearchParams.getAll "drawer" (search location))).
  { subst n. apply drawerStack_length. }
  destruct (URLSearchParams.getAll "drawer" (search location) !! i) as [p|] eqn:Hp;
    [|apply lookup_ge_None in Hp; lia].
  simpl. f_equal.
  unfold depthFromTop, effectiveIndex. simpl id.
  assert (Hids : id <$> effectiveStack location t
                 = drawer_id <$> filter (λ j, keep j = true) (seq 0 n)).
  { unfold effectiveStack, drawerStack, searchParams. rewrite Hn.
    by apply effective_ids. }
  assert (Hlen : length (effectiveStack location t)
                 = length (filter (λ j, keep j = true) (seq 0 n))).
  { by rewrite <- (length_fmap id), Hids, length_fmap. }
  rewrite (findIndex_from_fmap id (λ s, String.eqb s (drawer_id i))), Hids.
  rewrite <- (findIndex_from_fmap drawer_id (λ s, String.eqb s (drawer_id i))).
  rewrite (findIndex_from_ext _ (λ j, Nat.eqb j i))
    by (intros j; apply drawer_id_eqb).
  rewrite (findIndex_in_kept keep i n 0 0).
  rewrite Hlen. replace (i - 0) with i by lia.
  rewrite (bool_decide_eq_true_2 (0 ≤ i)%nat) by lia.
  rewrite (bool_decide_eq_true_2 (i < 0 + n)%nat) by lia. simpl.
  assert (Hki : keep i = negb (bool_decide (i ∈ closingDrawers t))) by done.
  destruct (bool_decide (i ∈ closingDrawers t)) eqn:Hclosing;
    rewrite Hki; simpl negb; cbv iota.
  - lia.
  - rewrite (kept_split keep i n Hi Hki). lia.
Qed.

(** X13. The depth of a panel is the number of panels above it that are
    not closing: every closing panel is left out of the count, at once,
    while the persisted list is what it was.  For a panel that is itself
    closing the formula gives the number of panels that are not. *)
Theorem depthFromTop_counts_open_above (location : Location) (t : Transient)
    (i : nat) :
  let n := length (drawerStack location) in
  let open_in := λ l : list nat, length (filter (λ j, j ∉ closingDrawers t) l) in
  i < n →
  depthAt location t i =
  Some (Z.of_nat (if bool_decide (i ∈ closingDrawers t)
                  then open_in (seq 0 n)
                  else open_in (seq (S i) (n - S i)))).
Proof. apply depthAt_count. Qed.

Lemma depthFromTop_counts_open_above_witness :
  depthAt (render three_drawers) (handleDrawerClose_mark 1 three_open) 0 = Some 1%Z ∧
  depthAt (render three_drawers) (handleDrawerClose_mark 1 three_open) 1 = Some 2%Z.
Proof.
  split.
  - apply (depthFromTop_counts_open_above (render three_drawers)
             (handleDrawerClose_mark 1 three_open) 0).
    vm_compute. lia.
  - apply (depthFromTop_counts_open_above (render three_drawers)
             (handleDrawerClose_mark 1 three_open) 1).
    vm_compute. lia.
Defined.

Lemma filter_not_in_empty (X : gset nat) (l : list nat) :
  X = ∅ → filter (λ j, j ∉ X) l = l.
Proof.
  intros ->. induction l as [|x l IH]; [done|].
  rewrite filter_cons, decide_True by apply not_elem_of_empty. by rewrite IH.
Qed.

(** X14. With no panel closing, the panel at index [i] of [n] has depth
    [n - 1 - i]; it is drawn at the rounded product of that depth and
    [-STACK_GAP], and shrunk to 1 less the rounded product of that depth
    and [STACK_SQUEEZE], rounded again, when its open flag is set, off
    screen when the flag is not set, and without a transform of its own
    while it is dragged.  The top panel rests at offset 0 and scale 1. *)
Theorem resting_transform (location : Location) (STACK_GAP STACK_SQUEEZE : Q)
    (t : Transient) (i : nat) (d : DrawerStackItem) :
  closingDrawers t = ∅ →
  drawerStack location !! i = Some d →
  let depth := (Z.of_nat (length (drawerStack location)) - 1 - Z.of_nat i)%Z in
  let shown := transform location STACK_GAP STACK_SQUEEZE t i d in
  let translateY := Number.mul (inject_Z depth) (- STACK_GAP)%Q in
  let scale := Number.sub 1%Q (Number.mul (inject_Z depth) STACK_SQUEEZE) in
  depthFromTop location t d = depth ∧
  (i ∈ draggingDrawers t → shown = TransformNone) ∧
  (i ∉ draggingDrawers t → openDrawers t !! i ≠ Some true → shown = Offscreen) ∧
  (i ∉ draggingDrawers t → openDrawers t !! i = Some true →
     shown = Stacked translateY scale ∧
     (S i = length (drawerStack location) →
        (translateY == 0)%Q ∧ (scale == 1)%Q)).
Proof.
  intros Hclosing Hd depth shown translateY scale.
  assert (Hi : i < length (drawerStack location)) by (by eapply lookup_lt_Some).
  assert (Hdepth : depthFromTop location t d = depth).
  { pose proof (depthAt_count location t i Hi) as Hcount.
    unfold depthAt in Hcount. rewrite Hd in Hcount. simpl in Hcount.
    injection Hcount as Hcount. rewrite Hcount.
    rewrite bool_decide_eq_false_2 by (rewrite Hclosing; apply not_elem_of_empty).
    rewrite filter_not_in_empty by done. rewrite length_seq. subst depth. lia. }
  subst shown. unfold transform. rewrite Hdepth.
  split; [done|]. split; [|split].
  - intros Hdrag. by rewrite bool_decide_eq_true_2.
  - intros Hdrag Hopen. rewrite bool_decide_eq_false_2 by done.
    destruct (openDrawers t !! i) as [[|]|]; simpl; done.
  - intros Hdrag Hopen. rewrite bool_decide_eq_false_2 by done.
    rewrite Hopen. simpl. split; [done|].
    intros Htop. subst translateY scale.
    replace depth with 0%Z by (subst depth; lia).
    change (inject_Z 0) with 0%Q. rewrite !mul_0_l. by vm_compute.
Qed.

Lemma resting_transform_witness :
  transform (render nine_drawers) 40 (Number.lit (1 # 25)) nine_open 0
    {| id := "drawer-0"; path := "/a"; level := 0 |}
  = Stacked (Number.mul (inject_Z 8) (- 40)%Q)
            (Number.sub 1%Q (Number.mul (inject_Z 8) (Number.lit (1 # 25)))).
Proof.
  apply (resting_transform (render nine_drawers) 40 (Number.lit (1 # 25)) nine_open 0
           {| id := "drawer-0"; path := "/a"; level := 0 |} eq_refl eq_refl).
  - apply not_elem_of_empty.
  - reflexivity.
Defined.

(** The bottom panel of nine, with the default props, 40 and [0.04]: it
    is drawn 320 px up, and its scale is the double just below [0.68],
    [0.6799999999999999]. *)
Lemma nine_drawers_bottom_panel :
  let scale := Number.sub 1%Q (Number.mul (inject_Z 8) (Number.lit (1 # 25))) in
  (Number.mul (inject_Z 8) (- 40)%Q == - 320)%Q ∧
  (scale == 6124895493223874 # 9007199254740992)%Q ∧
  (scale < 17 # 25)%Q ∧
  (Number.lit (17 # 25) == 6124895493223875 # 9007199254740992)%Q.
Proof. by vm_compute. Qed.

(** ** The open flags *)

Lemma assign_range_over (v w : bool) (k : nat) :
  ∀ arr : list bool,
    assign_range (length arr) (length arr + k) v (arr ++ replicate k w)
    = (arr ++ replicate k v)%list.
Proof.
  unfold assign_range. induction k as [|k IH]; intros arr.
  - by replace (length arr + 0 - length arr) with 0 by lia.
  - replace (length arr + S k - length arr) with (S k) by lia.
    cbn [seq foldl].
    assert (Hstep : assign_at (length arr) v (arr ++ replicate (S k) w)
                    = ((arr ++ [v]) ++ replicate k w)%list).
    { unfold assign_at. rewrite bool_decide_eq_true_2
        by (rewrite length_app; simpl; lia).
      replace (length arr) with (length arr + 0) at 1 by lia.
      rewrite insert_app_r. simpl. by rewrite <- app_assoc. }
    rewrite Hstep.
    specialize (IH (arr ++ [v])%list).
    rewrite length_app in IH. simpl in IH.
    replace (length arr + 1 + k - (length arr + 1)) with k in IH by lia.
    replace (S (length arr)) with (length arr + 1) by lia.
    rewrite IH. by rewrite <- app_assoc.
Qed.

Lemma assign_range_extend (v : bool) (k : nat) :
  ∀ arr : list bool,
    assign_range (length arr) (length arr + k) v arr = (arr ++ replicate k v)%list.
Proof.
  unfold assign_range. induction k as [|k IH]; intros arr.
  - replace (length arr + 0 - length arr) with 0 by lia. simpl.
    by rewrite app_nil_r.
  - replace (length arr + S k - length arr) with (S k) by lia.
    cbn [seq foldl].
    assert (Hstep : assign_at (length arr) v arr = (arr ++ [v])%list).
    { unfold assign_at. rewrite bool_decide_eq_false_2 by lia.
      by replace (length arr - length arr) with 0 by lia. }
    rewrite Hstep.
    specialize (IH (arr ++ [v])%list).
    rewrite length_app in IH. simpl in IH.
    replace (length arr + 1 + k - (length arr + 1)) with k in IH by lia.
    replace (S (length arr)) with (length arr + 1) by lia.
    rewrite IH. by rewrite <- app_assoc.
Qed.

Lemma syncOpenDrawers_shape (stackLength : nat) (prev : list bool) :
  (syncOpenDrawers stackLength prev).1
  = (take stackLength prev ++ replicate (stackLength - length prev) false)%list ∧
  syncOpenDrawers_settled stackLength prev
  = (take stackLength prev ++ replicate (stackLength - length prev) true)%list.
Proof.
  unfold syncOpenDrawers_settled, syncOpenDrawers.
  case_bool_decide as Hgrow; [|case_bool_decide as Hshrink]; simpl.
  - rewrite take_ge by lia.
    remember (stackLength - length prev) as k eqn:Hk.
    assert (Hlen : stackLength = length prev + k) by lia.
    clear Hk. subst stackLength.
    by rewrite assign_range_extend, assign_range_over.
  - replace (stackLength - length prev) with 0 by lia. simpl.
    by rewrite app_nil_r.
  - replace (stackLength - length prev) with 0 by lia. simpl.
    rewrite take_ge by lia. by rewrite app_nil_r.
Qed.

(** X15. The effect that follows the stack length leaves one open flag
    per level: the flags of the levels that stay are kept, those beyond
    the new length are dropped, and every new level gets a flag that is
    [false] at first and [true] once the timer of the effect has run. *)
Theorem syncOpenDrawers_reconciles (stackLength : nat) (prev : list bool) :
  let kept := take stackLength prev in
  let added := stackLength - length prev in
  (syncOpenDrawers stackLength prev).1 = (kept ++ replicate added false)%list ∧
  syncOpenDrawers_settled stackLength prev = (kept ++ replicate added true)%list ∧
  length (syncOpenDrawers stackLength prev).1 = stackLength ∧
  length (syncOpenDrawers_settled stackLength prev) = stackLength.
Proof.
  intros kept added.
  destruct (syncOpenDrawers_shape stackLength prev) as [Hnow Hsettled].
  fold kept added in Hnow, Hsettled. rewrite Hnow, Hsettled.
  split; [done|]. split; [done|].
  subst kept added.
  rewrite !length_app, !length_replicate, length_take. lia.
Qed.

(** ** The close sequence, whole *)

Lemma assign_at_length (i : nat) (v : bool) (arr : list bool) :
  length (assign_at i v arr) = max (length arr) (S i).
Proof.
  unfold assign_at. case_bool_decide.
  - rewrite length_insert. lia.
  - rewrite !length_app, length_replicate. simpl. lia.
Qed.

Lemma assign_at_lookup (i : nat) (v : bool) (arr : list bool) :
  assign_at i v arr !! i = Some v.
Proof.
  unfold assign_at. case_bool_decide as Hi.
  - by apply list_lookup_insert_eq.
  - rewrite lookup_app_r by lia. rewrite lookup_app_r by (rewrite length_replicate; lia).
    rewrite length_replicate. by replace (i - length arr - (i - length arr)) with 0 by lia.
Qed.

Lemma assign_at_lookup_ne (i j : nat) (v : bool) (arr : list bool) :
  j ≠ i → j < length arr → assign_at i v arr !! j = arr !! j.
Proof.
  intros Hne Hj. unfold assign_at. case_bool_decide.
  - by apply list_lookup_insert_ne.
  - by rewrite lookup_app_l.
Qed.

Lemma take_assign_at (i : nat) (v : bool) (arr : list bool) :
  take i (assign_at i v arr) = (take i arr ++ replicate (i - length arr) false)%list.
Proof.
  unfold assign_at. case_bool_decide as Hi.
  - rewrite take_insert_ge by lia.
    replace (i - length arr) with 0 by lia. simpl. by rewrite app_nil_r.
  - rewrite (take_ge arr) by lia. rewrite app_assoc.
    rewrite take_app_length'; [done|].
    rewrite length_app, length_replicate. lia.
Qed.

Lemma drawerStack_render_length (b : Browser) :
  length (drawerStack (render b)) = length (persisted b).
Proof. apply drawerStack_length. Qed.

(** The length of the stack after the URL step of a close sequence, run
    from a render of the live URL. *)
Lemma handleDrawerClose_timeout_length (level : nat) (b : Browser) :
  length (persisted (handleDrawerClose_timeout (render b) level b)) =
  if bool_decide (S level = length (persisted b)) then length (persisted b) - 1
  else 0.
Proof.
  unfold handleDrawerClose_timeout, popDrawerInternal.
  rewrite drawerStack_render_length.
  case_bool_decide as Hz; case_bool_decide as Htop; try lia.
  - rewrite persisted_popDrawer.
    destruct (persisted b) as [|x l _] using rev_ind; [done|].
    rewrite slice_0_m1_snoc, length_app. simpl. lia.
  - by rewrite persisted_closeAllDrawers.
Qed.

(** The open flags after a whole close sequence, run from a render of the
    live URL. *)
Lemma handleDrawerClose_flags (level : nat) (b : Browser) (t : Transient) :
  let n := length (persisted b) in
  openDrawers (handleDrawerClose (render b) level (b, t)).2 =
  if bool_decide (S level = n) then
    (take level (openDrawers t) ++ replicate (level - length (openDrawers t)) false)%list
  else if bool_decide (n = 0) then assign_at level false (openDrawers t)
  else [].
Proof.
  intros n. unfold handleDrawerClose.
  cbn [fst snd handleDrawerClose_cleanup handleDrawerClose_mark openDrawers].
  rewrite !drawerStack_render_length, handleDrawerClose_timeout_length. fold n.
  pose proof (assign_at_length level false (openDrawers t)) as Hlen.
  unfold openDrawers_after_render.
  destruct (syncOpenDrawers_shape (n - 1) (assign_at level false (openDrawers t)))
    as [_ Htop].
  destruct (syncOpenDrawers_shape 0 (assign_at level false (openDrawers t)))
    as [_ Hall].
  destruct (decide (S level = n)) as [Hlevel|Hlevel].
  - rewrite !(bool_decide_eq_true_2 (S level = n)) by done.
    rewrite bool_decide_eq_false_2 by lia. rewrite Htop.
    replace (n - 1) with level by lia.
    rewrite take_assign_at.
    replace (level - length (assign_at level false (openDrawers t))) with 0 by lia.
    simpl. by rewrite app_nil_r.
  - rewrite !(bool_decide_eq_false_2 (S level = n)) by done.
    destruct (decide (n = 0)) as [Hn|Hn].
    + by rewrite !bool_decide_eq_true_2.
    + rewrite !bool_decide_eq_false_2 by done. by rewrite Hall.
Qed.

(** X16. Through a close sequence, run from a render of the live URL, the
    level is marked closing and its flag cleared from the first step on,
    and it is unmarked at the end; the marks of the other levels and the
    dragging set are not touched.  The flags follow the stack once the
    URL step has changed its length: closing the top level leaves the
    flags of the levels below it, closing any other level of a stack
    leaves no flag at all.  The sequence does not check the level: with
    no drawer open the flags are the ones of the first step, grown up to
    the level. *)
Theorem close_sequence_transient (level : nat) (b : Browser) (t : Transient) :
  let n := length (persisted b) in
  let marked := handleDrawerClose_mark level t in
  let done := (handleDrawerClose (render b) level (b, t)).2 in
  level ∈ closingDrawers marked ∧
  openDrawers marked !! level = Some false ∧
  closingDrawers done = closingDrawers t ∖ {[level]} ∧
  draggingDrawers done = draggingDrawers t ∧
  (S level = n →
     openDrawers done =
     (take level (openDrawers t)
        ++ replicate (level - length (openDrawers t)) false)%list) ∧
  (S level ≠ n → 0 < n → openDrawers done = []) ∧
  (n = 0 → openDrawers done = assign_at level false (openDrawers t)).
Proof.
  intros n marked done.
  pose proof (handleDrawerClose_flags level b t) as Hflags.
  cbv zeta in Hflags. fold n done in Hflags.
  split; [apply elem_of_union; right; by apply elem_of_singleton|].
  split; [apply assign_at_lookup|].
  split.
  { subst done. simpl. apply set_eq. intros x.
    rewrite !elem_of_difference, elem_of_union, elem_of_singleton. tauto. }
  split; [done|].
  split; [|split].
  - intros Htop. by rewrite Hflags, bool_decide_eq_true_2.
  - intros Hmid Hn. by rewrite Hflags, !bool_decide_eq_false_2 by lia.
  - intros Hn. rewrite Hflags, bool_decide_eq_false_2 by lia.
    by rewrite bool_decide_eq_true_2.
Qed.

Lemma close_sequence_transient_witness :
  openDrawers (handleDrawerClose (render three_drawers) 2 (three_drawers, three_open)).2
    = [true; true] ∧
  openDrawers (handleDrawerClose (render three_drawers) 1 (three_drawers, three_open)).2
    = [].
Proof.
  split.
  - apply (proj1 (proj2 (proj2 (proj2 (proj2
      (close_sequence_transient 2 three_drawers three_open)))))).
    reflexivity.
  - apply (proj1 (proj2 (proj2 (proj2 (proj2 (proj2
      (close_sequence_transient 1 three_drawers three_open))))))).
    + discriminate.
    + vm_compute. lia.
Defined.

(** X17. The listener of [popDrawerAnimated] checks the level it is
    given: for a level of the stack it runs the close sequence, for any
    other number it changes nothing.  Registered by the render of the
    live URL, it leaves one flag per level of the stack it leaves, when
    there was one flag per level before it. *)
Theorem popDrawerAnimated_checks_the_level (location : Location) (level : Z)
    (b : Browser) (t : Transient) :
  let n := Z.of_nat (length (drawerStack location)) in
  let after := handlePopDrawerAnimated location level (b, t) in
  ((level < 0 ∨ n ≤ level)%Z → after = (b, t)) ∧
  ((0 ≤ level < n)%Z →
     after = handleDrawerClose location (Z.to_nat level) (b, t)) ∧
  (location = render b →
   length (openDrawers t) = length (drawerStack (render b)) →
     length (openDrawers after.2) = length (drawerStack (render after.1))).
Proof.
  intros n after. subst n after. unfold handlePopDrawerAnimated.
  split; [|split].
  - intros [Hneg|Hbig].
    + by rewrite (bool_decide_eq_false_2 (0 ≤ level)%Z) by lia.
    + rewrite (bool_decide_eq_false_2 (level < _)%Z) by lia.
      by rewrite andb_false_r.
  - intros [Hlo Hhi].
    by rewrite (bool_decide_eq_true_2 (0 ≤ level)%Z),
      (bool_decide_eq_true_2 (level < _)%Z) by lia.
  - intros -> Hone.
    destruct (bool_decide (0 ≤ level)%Z) eqn:Hlo; [|done].
    destruct (bool_decide (level < _)%Z) eqn:Hhi; [|done].
    apply bool_decide_eq_true in Hlo, Hhi. cbn [andb].
    rewrite drawerStack_render_length in Hone, Hhi.
    rewrite handleDrawerClose_flags. cbv zeta.
    rewrite drawerStack_render_length.
    change (handleDrawerClose (render b) (Z.to_nat level) (b, t)).1
      with (handleDrawerClose_timeout (render b) (Z.to_nat level) b).
    rewrite handleDrawerClose_timeout_length.
    destruct (decide (S (Z.to_nat level) = length (persisted b))) as [Htop|Htop].
    + rewrite !(bool_decide_eq_true_2 (S _ = _)) by done.
      rewrite length_app, length_take, length_replicate. lia.
    + rewrite !(bool_decide_eq_false_2 (S _ = _)) by done.
      rewrite bool_decide_eq_false_2 by lia. done.
Qed.

Lemma popDrawerAnimated_checks_the_level_witness :
  handlePopDrawerAnimated (render three_drawers) 3 (three_drawers, three_open)
    = (three_drawers, three_open) ∧
  handlePopDrawerAnimated (render three_drawers) (-1) (three_drawers, three_open)
    = (three_drawers, three_open) ∧
  length (openDrawers
            (handlePopDrawerAnimated (render three_drawers) 1
               (three_drawers, three_open)).2) =
  length (drawerStack (render
            (handlePopDrawerAnimated (render three_drawers) 1
               (three_drawers, three_open)).1)).
Proof.
  split; [|split].
  - apply (proj1 (popDrawerAnimated_checks_the_level (render three_drawers) 3
                    three_drawers three_open)).
    right. vm_compute. discriminate.
  - apply (proj1 (popDrawerAnimated_checks_the_level (render three_drawers) (-1)
                    three_drawers three_open)).
    left. reflexivity.
  - apply (proj2 (proj2 (popDrawerAnimated_checks_the_level (render three_drawers) 1
                    three_drawers three_open))); reflexivity.
Defined.

(** X18. The URL step of the close sequence removes exactly the top path
    when the level is the top one, and every path for any other level,
    levels below the top and levels that are not in the stack alike. *)
Theorem close_step_pops_top_or_clears (b : Browser) (level : nat) :
  persisted (handleDrawerClose_timeout_v1 (render b) level b) =
  if bool_decide (S level = length (persisted b)) then slice_0_m1 (persisted b)
  else [].
Proof.
  unfold handleDrawerClose_timeout_v1. rewrite drawerStack_length.
  change (URLSearchParams.getAll "drawer" (search (render b))) with (persisted b).
  case_bool_decide as Hz; case_bool_decide as Hn; try lia.
  - apply persisted_popDrawer.
  - apply persisted_closeAllDrawers.
Qed.

(** X19. A pointer-down reaches [handleDrawerClose] only for the top
    panel, and then once: the panel has to be open and mounted and the
    target outside its content or on an overlay, not inside another
    drawer and not inside the toast container.  Panels below the top
    never close on it, as the default is always prevented before
    [onOpenChange] could be called. *)
Theorem outside_pointer_down_closes_top_only (location : Location) (index : nat)
    (open mounted : bool) (ev : PointerDown) :
  handlePointerDown location index open mounted ev =
  if open && mounted && negb (in_other_drawer ev)
     && (negb (in_own_content ev) || on_overlay ev)
     && negb (in_toast ev)
     && bool_decide (S index = length (drawerStack location))
  then [index] else [].
Proof.
  unfold handlePointerDown, onPointerDownOutside, onInteractOutside.
  destruct open, mounted, ev as [[|] [|] [|] [|]]; simpl; try done;
    case_bool_decide as Hz; case_bool_decide as Hn; try done; lia.
Qed.

(** ** The gesture recogniser *)

Section gestures.

Import CustomVerticalDrawer.

Lemma max0_nonneg (x : Q) : (0 <= max0 x)%Q.
Proof.
  unfold max0. destruct (Qle_bool 0 x) eqn:Hx; [by apply Qle_bool_iff|apply Qle_refl].
Qed.

Lemma max0_of_nonpos (x : Q) : (x <= 0)%Q → (max0 x == 0)%Q.
Proof.
  intros Hx. unfold max0. destruct (Qle_bool 0 x) eqn:H0; [|reflexivity].
  apply Qle_bool_iff in H0. by apply Qle_antisym.
Qed.

(** X20. A move never leaves a negative drag offset and never reports a
    negative fraction: motion above the press point counts as no motion
    at all. *)
Theorem drag_offset_never_negative (e : PointerEvent) (s : DragState) :
  (0 <= dragOffset s)%Q →
  let out := handleDragMove e s in
  (0 <= dragOffset out.1)%Q ∧
  (∀ (e' : PointerEvent) (fraction : Q), OnDrag e' fraction ∈ out.2 → (0 <= fraction)%Q) ∧
  (∀ startY : Q,
     isDragging s = true → dragStartY s = Some startY →
     (clientY e <= startY)%Q → (dragOffset out.1 == 0)%Q).
Proof.
  intros Hoff out. subst out. unfold handleDragMove.
  destruct (isDragging s) eqn:Hdrag; cycle 1.
  { split; [done|]. split; [intros ? ? Hin; by apply elem_of_nil in Hin|done]. }
  destruct (dragStartY s) as [startY|] eqn:Hstart; cycle 1.
  { split; [done|]. split; [intros ? ? Hin; by apply elem_of_nil in Hin|done]. }
  simpl. split; [apply max0_nonneg|]. split.
  - intros e' fraction Hin.
    destruct (gt (initialHeight s) 0) eqn:Hh; [|by apply elem_of_nil in Hin].
    apply list_elem_of_singleton in Hin. injection Hin as _ ->.
    apply gt_true in Hh. apply round_nonneg.
    apply Qle_shift_div_l; [done|].
    rewrite Qmult_0_l. apply max0_nonneg.
  - intros startY' _ [= <-] Hup. apply max0_of_nonpos, round_nonpos. lra.
Qed.

Lemma drag_offset_never_negative_witness :
  (dragOffset (handleDragMove (mkEvent 4) (dragged_by 30)).1 == 0)%Q.
Proof.
  apply (proj2 (proj2 (drag_offset_never_negative (mkEvent 4) (dragged_by 30)
           ltac:(discriminate))) 10%Q eq_refl eq_refl).
  discriminate.
Defined.



Lemma move_logged_state (moves : list PointerEvent) :
  ∀ (s : DragState) (calls : list Callback),
    (foldl move_logged (s, calls) moves).1
    = foldl (λ st e, (handleDragMove e st).1) s moves.
Proof.
  induction moves as [|e moves IH]; intros s calls; [done|].
  simpl. unfold move_logged at 2. simpl.
  destruct (handleDragMove e s) as [s' calls'] eqn:Hmove. simpl. apply IH.
Qed.

Lemma move_logged_trace (startY height : Q) (moves : list PointerEvent) :
  (0 < height)%Q →
  ∀ (s : DragState) (calls : list Callback),
    tracking startY height s →
    (foldl move_logged (s, calls) moves).2 =
    (calls ++ ((λ e, OnDrag e (Number.div (max0 (Number.sub (clientY e) startY)) height))
                 <$> moves))%list.
Proof.
  intros Hheight. induction moves as [|e moves IH]; intros s calls Hs.
  - simpl. by rewrite app_nil_r.
  - simpl. unfold move_logged at 2. simpl.
    pose proof (handleDragMove_tracking startY height e s Hs) as [Hs' _].
    assert (Hcalls : (handleDragMove e s).2
              = [OnDrag e (Number.div (max0 (Number.sub (clientY e) startY)) height)]).
    { destruct Hs as (Hdrag & Hstart & Hh). unfold handleDragMove.
      rewrite Hdrag, Hstart, Hh. simpl.
      by rewrite (proj2 (gt_true height 0)). }
    destruct (handleDragMove e s) as [s' calls']. simpl in *. subst calls'.
    rewrite (IH s' _ Hs'). by rewrite <- app_assoc.
Qed.

(** X22. What the listeners of a panel receive through a gesture on its
    body, the panel having a height above 0: the drag callback with
    fraction 0 at the press, then once per move with the clamped distance
    from the press point as a fraction of the height, and at the release
    the release callback once, flagged open or closed, after the close
    request when the delta is above the threshold.  Distance, fraction
    and threshold are each the rounded result of its operation. *)
Theorem body_gesture_trace (s0 : DragState) (height : Q)
    (press last release : PointerEvent) (moves : list PointerEvent) :
  (0 < height)%Q →
  let delta := λ e : PointerEvent, max0 (Number.sub (clientY e) (clientY press)) in
  let fraction := λ e : PointerEvent, Number.div (delta e) height in
  let threshold := Number.mul height (Number.lit (3 # 10)) in
  (gesture_logged (Some height) press (moves ++ [last]) release s0).2 =
  ((OnDrag press 0%Q :: ((λ e, OnDrag e (fraction e)) <$> (moves ++ [last]))) ++
   (if gt (delta last) threshold
    then [OnOpenChange false; OnRelease release false]
    else [OnRelease release true]))%list.
Proof.
  intros Hheight delta fraction threshold. subst delta fraction threshold.
  unfold gesture_logged.
  set (s1 := (handleDragStart false (Some height) press s0).1).
  change (handleDragStart false (Some height) press s0) with (s1, [OnDrag press 0%Q]).
  assert (Hs1 : tracking (clientY press) height s1)
    by apply handleDragStart_tracking.
  pose proof (move_logged_trace (clientY press) height (moves ++ [last]) Hheight
                s1 [OnDrag press 0%Q] Hs1) as Hcalls.
  pose proof (move_logged_state (moves ++ [last]) s1 [OnDrag press 0%Q]) as Hstate.
  destruct (foldl move_logged (s1, [OnDrag press 0%Q]) (moves ++ [last]))
    as [s3 logged]. cbn [fst snd] in *. subst logged.
  rewrite foldl_app in Hstate. cbn [foldl] in Hstate.
  pose proof (moves_tracking (clientY press) height moves s1 Hs1) as Hs2.
  destruct (handleDragMove_tracking _ _ last _ Hs2) as [(Hdrag & _ & Hh) Hoff].
  rewrite <- Hstate in Hdrag, Hh, Hoff.
  pose proof (handleDragEnd_calls s3 release Hdrag) as Hend.
  rewrite Hh, Hoff in Hend.
  destruct (handleDragEnd (Some release) s3) as [s4 ended]. simpl in Hend.
  by subst ended.
Qed.

Lemma body_gesture_trace_witness :
  (gesture_logged (Some 723%Q) (mkEvent (Number.lit (1001 # 10))) [mkEvent 4; mkEvent 317]
     (mkEvent 317) initial).2 =
  [OnDrag (mkEvent (Number.lit (1001 # 10))) 0%Q;
   OnDrag (mkEvent 4)
     (Number.div (max0 (Number.sub 4 (Number.lit (1001 # 10)))) 723);
   OnDrag (mkEvent 317)
     (Number.div (max0 (Number.sub 317 (Number.lit (1001 # 10)))) 723);
   OnRelease (mkEvent 317) true].
Proof.
  apply (body_gesture_trace initial 723 (mkEvent (Number.lit (1001 # 10)))
           (mkEvent 317) (mkEvent 317) [mkEvent 4]).
  reflexivity.
Defined.









End gestures.
